(** * OpenGPU assembler ([sw/assembler/opengpu_asm.py]): a shallow embedding

    The assembler turns a text of assembly lines into a list of machine
    words in two passes.  Python integers are unbounded, so they are [Z];
    [<<], [|] and [&] are [Z.shiftl], [Z.lor] and [Z.land] (two's complement
    on negative numbers, as in Python).  A Python [str] is a list of
    characters; the development covers ASCII source text (the character
    classes below are the ASCII part of the Unicode ones Python uses).
    The label dictionary is a [gmap], the exceptions the code raises are the
    constructors of [error], and [int()] refuses a decimal literal of more
    digits than the limit the interpreter starts with (4300). *)

From Stdlib Require Import ZArith List Ascii String Bool Lia.
From Stdlib Require DecimalString HexadecimalString.
From Stdlib Require HexadecimalFacts HexadecimalPos HexadecimalN.
From stdpp Require Import base tactics option list gmap strings.
Import ListNotations.

Local Open Scope Z_scope.

(** ** Text *)

Abbreviation text := (list ascii).

Definition str (s : string) : text := list_ascii_of_string s.

Definition ord (c : ascii) : Z := Z.of_N (N_of_ascii c).

Definition in_range (lo hi : Z) (c : ascii) : bool :=
  (lo <=? ord c) && (ord c <=? hi).

(** [str.isspace] on ASCII: TAB, LF, VT, FF, CR, FS, GS, RS, US and SPACE. *)
Definition isspace (c : ascii) : bool :=
  in_range 9 13 c || in_range 28 32 c.

(** [\d] and [\w] of the [re] module, on ASCII. *)
Definition isdigit (c : ascii) : bool := in_range 48 57 c.

Definition isword (c : ascii) : bool :=
  in_range 48 57 c || in_range 65 90 c || in_range 97 122 c || Ascii.eqb c "_".

(** [str.upper], on ASCII. *)
Definition upper_char (c : ascii) : ascii :=
  if in_range 97 122 c then ascii_of_N (N_of_ascii c - 32) else c.

Definition upper (s : text) : text := map upper_char s.

Fixpoint lstrip (s : text) : text :=
  match s with
  | c :: s' => if isspace c then lstrip s' else s
  | [] => []
  end.

Definition rstrip (s : text) : text := rev (lstrip (rev s)).

(** [str.strip()] *)
Definition strip (s : text) : text := rstrip (lstrip s).

(** [s.split(sep)] for a one-character separator: never empty. *)
Fixpoint split (sep : ascii) (s : text) : list text :=
  match s with
  | [] => [[]]
  | c :: s' =>
      if Ascii.eqb c sep then [] :: split sep s'
      else match split sep s' with
           | p :: ps => (c :: p) :: ps
           | [] => [[c]]
           end
  end.

(** [sep.join(parts)] *)
Fixpoint join (sep : ascii) (parts : list text) : text :=
  match parts with
  | [] => []
  | [p] => p
  | p :: ps => p ++ sep :: join sep ps
  end.

(** [s.replace(a, b)] for single characters. *)
Definition replace (a b : ascii) (s : text) : text :=
  map (fun c => if Ascii.eqb c a then b else c) s.

(** [s.split()]: the maximal runs of characters that are not whitespace. *)
Fixpoint words (s : text) : list text :=
  match s with
  | [] => []
  | c :: s' =>
      if isspace c then words s'
      else match s' with
           | c' :: _ =>
               if isspace c' then [c] :: words s'
               else match words s' with
                    | w :: ws => (c :: w) :: ws
                    | [] => [[c]]
                    end
           | [] => [[c]]
           end
  end.

(** [s.startswith(p)] *)
Fixpoint startswith (p s : text) : bool :=
  match p, s with
  | [], _ => true
  | a :: p', b :: s' => Ascii.eqb a b && startswith p' s'
  | _ :: _, [] => false
  end.

(** [c in s] *)
Definition contains (c : ascii) (s : text) : bool := existsb (Ascii.eqb c) s.

(** The longest prefix of [s] whose characters satisfy [p], and the rest. *)
Fixpoint span (p : ascii -> bool) (s : text) : text * text :=
  match s with
  | c :: s' => if p c then let '(a, b) := span p s' in (c :: a, b) else ([], s)
  | [] => ([], [])
  end.

(** ** Exceptions

    Every failure of the assembler is a Python exception.  The [ValueError]s
    are told apart by their message; [IndexError] is what indexing a list
    past its end raises. *)

Inductive error : Type :=
| UnknownRegister (reg_str : text)       (* "Unknown register: ..." *)
| ImmediateParseError (imm_str : text)   (* "Cannot parse immediate: ..." *)
| InvalidMemoryOperand (operand : text)  (* "Invalid memory operand: ..." *)
| ImmediateRangeError (imm : Z)          (* "LI immediate too large: ..." *)
| UnknownInstruction (mnemonic : text)   (* "Unknown instruction: ..." *)
| UnhandledInstruction (mnemonic : text) (* "Unhandled instruction: ..." *)
| InvalidLiteral (s : text)              (* [int(s)]: "invalid literal ..." or
                                            "Exceeds the limit (4300 digits) ..." *)
| IndexError                             (* "list index out of range" *)
| KeyError (key : text)                  (* a key missing from a table *)
| TypeError.                             (* an opcode that is [None] *)

Inductive result (A : Type) : Type :=
| Ok (a : A)
| Raise (e : error).
Arguments Ok {A} a.
Arguments Raise {A} e.

Definition bind {A B : Type} (k : A -> result B) (r : result A) : result B :=
  match r with
  | Ok a => k a
  | Raise e => Raise e
  end.

#[global] Instance result_ret : MRet result := @Ok.
#[global] Instance result_bind : MBind result := @bind.

(** [l[i]] *)
Definition index {A : Type} (l : list A) (i : nat) : result A :=
  match nth_error l i with
  | Some a => Ok a
  | None => Raise IndexError
  end.

(** ** [int(s, base)] for the bases 2, 10 and 16

    CPython's [PyLong_FromString]: surrounding whitespace, a sign, the base
    prefix when the base is 2 or 16 (with one underscore allowed after it),
    then digits with single underscores between them.  In a base that is not
    a power of two the number of digits is limited. *)

(** [sys.get_int_max_str_digits()], as the interpreter starts. *)
Definition max_str_digits : Z := 4300.

(** The bases in which the limit applies: [(base & (base - 1)) != 0]. *)
Definition limited (base : Z) : bool := negb (Z.land base (base - 1) =? 0).

(** [_PyLong_DigitValue] *)
Definition digit_value (c : ascii) : Z :=
  if in_range 48 57 c then ord c - 48
  else if in_range 97 122 c then ord c - 87
  else if in_range 65 90 c then ord c - 55
  else 37.

(** The digit loop: [prev] tells whether the last character was an
    underscore, [n] counts the digits.  It stops at the first character that
    is neither a digit of the base nor an underscore. *)
Fixpoint scan_digits (base : Z) (prev : bool) (acc : Z) (n : nat) (s : text)
  : option (Z * nat * text) :=
  match s with
  | c :: s' =>
      if Ascii.eqb c "_" then
        if prev then None else scan_digits base true acc n s'
      else if digit_value c <? base then
        scan_digits base false (acc * base + digit_value c) (S n) s'
      else if prev then None else Some (acc, n, s)
  | [] => if prev then None else Some (acc, n, [])
  end.

Definition skip_prefix (base : Z) (s : text) : text :=
  match s with
  | "0"%char :: c :: s' =>
      if ((base =? 16) && (Ascii.eqb c "x" || Ascii.eqb c "X"))
         || ((base =? 2) && (Ascii.eqb c "b" || Ascii.eqb c "B"))
      then match s' with
           | "_"%char :: s'' => s''
           | _ => s'
           end
      else s
  | _ => s
  end.

Definition py_int (s : text) (base : Z) : option Z :=
  let s := lstrip s in
  let '(sign, s) :=
    match s with
    | "+"%char :: s' => (1, s')
    | "-"%char :: s' => (-1, s')
    | _ => (1, s)
    end in
  let s := skip_prefix base s in
  match s with
  | "_"%char :: _ => None
  | _ =>
      match scan_digits base false 0 0 s with
      | Some (z, S n, rest) =>
          if limited base && (max_str_digits <? Z.of_nat (S n)) then None
          else
            match lstrip rest with
            | [] => Some (sign * z)
            | _ :: _ => None
            end
      | _ => None
      end
  end.

(** ** Regular expressions

    A backtracking matcher for the fragment of [re] that the memory operand
    needs: a literal character, [c+] for a character class, [r?], sequence
    and numbered groups.  Quantifiers are greedy and give characters back when
    the rest of the pattern fails, as in [re]. *)

Inductive regex : Type :=
| Lit (c : ascii)
| Plus (p : ascii -> bool)
| Opt (r : regex)
| Seq (r1 r2 : regex)
| Group (i : nat) (r : regex).

Fixpoint star {R : Type} (p : ascii -> bool) (s : text) (k : text -> option R)
  : option R :=
  match s with
  | c :: s' =>
      if p c then
        match star p s' k with
        | Some r => Some r
        | None => k s
        end
      else k s
  | [] => k []
  end.

Fixpoint rmatch (r : regex) (s : text) (g : gmap nat text)
    (k : text -> gmap nat text -> option (gmap nat text))
  : option (gmap nat text) :=
  match r with
  | Lit c =>
      match s with
      | c' :: s' => if Ascii.eqb c' c then k s' g else None
      | [] => None
      end
  | Plus p =>
      match s with
      | c :: s' => if p c then star p s' (fun t => k t g) else None
      | [] => None
      end
  | Opt r =>
      match rmatch r s g k with
      | Some g' => Some g'
      | None => k s g
      end
  | Seq r1 r2 => rmatch r1 s g (fun t g' => rmatch r2 t g' k)
  | Group i r =>
      rmatch r s g
        (fun t g' => k t (<[i := take (length s - length t) s]> g'))
  end.

(** [re.match(r, s)]: anchored at the start of [s], not at its end. *)
Definition re_match (r : regex) (s : text) : option (gmap nat text) :=
  rmatch r s ∅ (fun _ g => Some g).

(** [r'(-?\d+)?\((\w+)\)'] *)
Definition memory_operand_re : regex :=
  Seq (Opt (Group 1 (Seq (Opt (Lit "-")) (Plus isdigit))))
      (Seq (Lit "(") (Seq (Group 2 (Plus isword)) (Lit ")"))).

(** ** The instruction set tables *)

Definition OPCODES_items : list (text * option Z) :=
    [ (str "ADD", Some 0x00); (str "ADDI", Some 0x01); (str "SUB", Some 0x02);
      (str "MUL", Some 0x03); (str "MULH", Some 0x04); (str "DIV", Some 0x05);
      (str "DIVU", Some 0x06); (str "REM", Some 0x07); (str "REMU", Some 0x08);
      (str "AND", Some 0x10); (str "ANDI", Some 0x11); (str "OR", Some 0x12);
      (str "ORI", Some 0x13); (str "XOR", Some 0x14); (str "XORI", Some 0x15);
      (str "NOT", Some 0x16);
      (str "SLL", Some 0x17); (str "SLLI", Some 0x18); (str "SRL", Some 0x19);
      (str "SRLI", Some 0x1A); (str "SRA", Some 0x1B); (str "SRAI", Some 0x1C);
      (str "FADD", Some 0x20); (str "FSUB", Some 0x21); (str "FMUL", Some 0x22);
      (str "FDIV", Some 0x23);
      (str "FMADD", Some 0x24); (str "FMSUB", Some 0x25); (str "FSQRT", Some 0x26);
      (str "FABS", Some 0x27); (str "FNEG", Some 0x28); (str "FMIN", Some 0x29);
      (str "FMAX", Some 0x2A);
      (str "FCVTWS", Some 0x2B); (str "FCVTSW", Some 0x2C);
      (str "FCMPEQ", Some 0x2D); (str "FCMPLT", Some 0x2E); (str "FCMPLE", Some 0x2F);
      (str "SLT", Some 0x40); (str "SLTI", Some 0x41); (str "SLTU", Some 0x42);
      (str "SLTIU", Some 0x43); (str "SEQ", Some 0x44); (str "SNE", Some 0x45);
      (str "SGE", Some 0x46); (str "SGEU", Some 0x47);
      (str "LW", Some 0x30); (str "LH", Some 0x31); (str "LHU", Some 0x32);
      (str "LB", Some 0x33); (str "LBU", Some 0x34); (str "SW", Some 0x35);
      (str "SH", Some 0x36); (str "SB", Some 0x37);
      (str "BEQ", Some 0x50); (str "BNE", Some 0x51); (str "BLT", Some 0x52);
      (str "BGE", Some 0x53); (str "BLTU", Some 0x54); (str "BGEU", Some 0x55);
      (str "JAL", Some 0x56); (str "JALR", Some 0x57);
      (str "RET", Some 0x58);
      (str "LUI", Some 0x69); (str "AUIPC", Some 0x6A);
      (str "NOP", None); (str "MV", None); (str "LI", None); (str "J", None) ].

Definition OPCODES : gmap text (option Z) := list_to_map OPCODES_items.

Definition R_TYPE : list text :=
  map str ["ADD"; "SUB"; "MUL"; "MULH"; "DIV"; "DIVU"; "REM"; "REMU";
           "AND"; "OR"; "XOR"; "NOT"; "SLL"; "SRL"; "SRA";
           "SLT"; "SLTU"; "SEQ"; "SNE"; "SGE"; "SGEU"]%string.
Definition I_TYPE : list text :=
  map str ["ADDI"; "ANDI"; "ORI"; "XORI"; "SLLI"; "SRLI"; "SRAI"; "SLTI";
           "SLTIU"; "JALR"]%string.
Definition MEM_LOAD : list text := map str ["LW"; "LH"; "LHU"; "LB"; "LBU"]%string.
Definition MEM_STORE : list text := map str ["SW"; "SH"; "SB"]%string.
Definition B_TYPE : list text :=
  map str ["BEQ"; "BNE"; "BLT"; "BGE"; "BLTU"; "BGEU"]%string.
Definition U_TYPE : list text := map str ["LUI"; "AUIPC"; "JAL"]%string.
Definition CTRL_TYPE : list text := map str ["RET"]%string.
Definition FPU_R2 : list text :=
  map str ["FADD"; "FSUB"; "FMUL"; "FDIV"; "FMIN"; "FMAX"; "FCMPEQ"; "FCMPLT";
           "FCMPLE"]%string.
Definition FPU_R1 : list text :=
  map str ["FABS"; "FNEG"; "FSQRT"; "FCVTWS"; "FCVTSW"]%string.
Definition FPU_R3 : list text := map str ["FMADD"; "FMSUB"]%string.

(** [f'X{i}'] *)
Definition x_name (i : nat) : text :=
  str ("X" ++ DecimalString.NilEmpty.string_of_uint (Nat.to_uint i)).

Definition REGISTERS_items : list (text * Z) :=
  [ (str "X0", 0); (str "ZERO", 0);
    (str "X1", 1); (str "THREADIDX", 1); (str "TID", 1);
    (str "X2", 2); (str "BLOCKIDX", 2); (str "BID", 2);
    (str "X3", 3); (str "BLOCKDIM", 3); (str "BDIM", 3);
    (str "X4", 4); (str "GRIDDIM", 4); (str "GDIM", 4);
    (str "X5", 5); (str "WARPIDX", 5); (str "WID", 5);
    (str "X6", 6); (str "LANEIDX", 6); (str "LID", 6) ]
  ++ map (fun i => (x_name i, Z.of_nat i)) (seq 7 25)
  ++ [ (str "T0", 7); (str "T1", 8); (str "T2", 9); (str "T3", 10);
       (str "T4", 11); (str "T5", 12); (str "T6", 13); (str "T7", 14);
       (str "T8", 15) ].

Definition REGISTERS : gmap text Z := list_to_map REGISTERS_items.

(** ** Operand parsers *)

Definition parse_register (reg_str : text) : result Z :=
  let reg_str := strip (upper reg_str) in
  match REGISTERS !! reg_str with
  | Some r => Ok r
  | None => Raise (UnknownRegister reg_str)
  end.

(** [labels] is [None] when the caller leaves the argument out.  An empty
    dictionary is false in [labels and ...]. *)
Definition parse_immediate (imm_str : text) (labels : option (gmap text Z))
    (current_addr : Z) (relative : bool) : result Z :=
  let imm_str := strip imm_str in
  let found :=
    match labels with
    | Some m => if decide (m = ∅) then None else m !! imm_str
    | None => None
    end in
  match found with
  | Some a => Ok (if relative then a - current_addr else a)
  | None =>
      let v :=
        if startswith (str "0x") imm_str || startswith (str "0X") imm_str
        then py_int imm_str 16
        else if startswith (str "0b") imm_str || startswith (str "0B") imm_str
        then py_int imm_str 2
        else py_int imm_str 10 in
      match v with
      | Some n => Ok n
      | None => Raise (ImmediateParseError imm_str)
      end
  end.

(** [int(s)] where [s] is not under a [try] *)
Definition int_ (s : text) : result Z :=
  match py_int s 10 with
  | Some n => Ok n
  | None => Raise (InvalidLiteral s)
  end.

(** Group 2 is not optional, so it is set whenever the match succeeds. *)
Definition parse_memory_operand (operand : text) : result (Z * Z) :=
  match re_match memory_operand_re (strip operand) with
  | None => Raise (InvalidMemoryOperand operand)
  | Some g =>
      offset ← int_ (match g !! 1%nat with
                     | Some (c :: t) => c :: t
                     | _ => str "0"
                     end);
      reg ← parse_register (default [] (g !! 2%nat));
      Ok (offset, reg)
  end.

(** ** Format encoders *)

Definition encode_r_type (opcode rd rs1 rs2 : Z) : Z :=
  Z.lor (Z.lor (Z.lor (Z.shiftl opcode 26) (Z.shiftl rd 21)) (Z.shiftl rs1 16))
        (Z.shiftl rs2 11).

Definition encode_i_type (opcode rd rs1 imm : Z) : Z :=
  Z.lor (Z.lor (Z.lor (Z.shiftl opcode 26) (Z.shiftl rd 21)) (Z.shiftl rs1 16))
        (Z.land imm 0xFFFF).

Definition encode_s_type (opcode rs2 rs1 offset : Z) : Z :=
  Z.lor (Z.lor (Z.lor (Z.shiftl opcode 26) (Z.shiftl rs2 21)) (Z.shiftl rs1 16))
        (Z.land offset 0xFFFF).

Definition encode_b_type (opcode rs1 rs2 offset : Z) : Z :=
  Z.lor (Z.lor (Z.lor (Z.shiftl opcode 26) (Z.shiftl rs2 21)) (Z.shiftl rs1 16))
        (Z.land offset 0xFFFF).

Definition encode_u_type (opcode rd imm : Z) : Z :=
  Z.lor (Z.lor (Z.shiftl opcode 26) (Z.shiftl rd 21)) (Z.land imm 0x1FFFFF).

(** The two packings that [assemble_instruction] writes in line: the control
    word and the three-source floating-point word (rs3 in bits 10..6). *)
Definition encode_ctrl (opcode : Z) : Z := Z.shiftl opcode 26.

Definition encode_fpu_r3 (opcode rd rs1 rs2 rs3 : Z) : Z :=
  Z.lor (Z.lor (Z.lor (Z.lor (Z.shiftl opcode 26) (Z.shiftl rd 21))
                      (Z.shiftl rs1 16))
               (Z.shiftl rs2 11))
        (Z.shiftl rs3 6).

(** ** The assembler object

    [labels] and [current_address] are the fields the two passes use
    ([instructions] is never touched).  The methods take the object and
    return its new state. *)

Record Assembler : Type := {
  labels : gmap text Z;
  current_address : Z
}.

(** [Assembler()] *)
Definition new_Assembler : Assembler := {| labels := ∅; current_address := 0 |}.

(** [OPCODES[key]] *)
Definition opcode_of (key : text) : result (option Z) :=
  match OPCODES !! key with
  | Some op => Ok op
  | None => Raise (KeyError key)
  end.

(** An opcode used as an integer: [None << 26] is a [TypeError]. *)
Definition as_int (opcode : option Z) : result Z :=
  match opcode with
  | Some op => Ok op
  | None => Raise TypeError
  end.

(** [self.parse_register(operands[i])] *)
Definition register_at (operands : list text) (i : nat) : result Z :=
  o ← index operands i; parse_register o.

(** Arguments are evaluated from left to right, then the call is made. *)
Definition assemble_instruction (self : Assembler) (line : text) (line_num : Z)
  : result Z :=
  let parts := words (replace "," " " line) in
  p0 ← index parts 0;
  let mnemonic := upper p0 in
  let operands := tl parts in
  if decide (mnemonic = str "NOP") then
    addi ← opcode_of (str "ADDI");
    op ← as_int addi;
    Ok (encode_i_type op 0 0 0)
  else if decide (mnemonic = str "MV") then
    addi ← opcode_of (str "ADDI");
    rd ← register_at operands 0;
    rs ← register_at operands 1;
    op ← as_int addi;
    Ok (encode_i_type op rd rs 0)
  else if decide (mnemonic = str "LI") then
    rd ← register_at operands 0;
    o1 ← index operands 1;
    imm ← parse_immediate o1 None 0 false;
    if (-32768 <=? imm) && (imm <=? 32767) then
      addi ← opcode_of (str "ADDI");
      op ← as_int addi;
      Ok (encode_i_type op rd 0 imm)
    else Raise (ImmediateRangeError imm)
  else if decide (mnemonic = str "J") then
    o0 ← index operands 0;
    offset ← parse_immediate o0 (Some (labels self)) (current_address self) true;
    jal ← opcode_of (str "JAL");
    op ← as_int jal;
    Ok (encode_u_type op 0 offset)
  else
  match OPCODES !! mnemonic with
  | None => Raise (UnknownInstruction mnemonic)
  | Some opcode =>
      if decide (mnemonic ∈ R_TYPE) then
        if decide (mnemonic = str "NOT") then
          rd ← register_at operands 0;
          rs1 ← register_at operands 1;
          op ← as_int opcode;
          Ok (encode_r_type op rd rs1 0)
        else
          rd ← register_at operands 0;
          rs1 ← register_at operands 1;
          rs2 ← register_at operands 2;
          op ← as_int opcode;
          Ok (encode_r_type op rd rs1 rs2)
      else if decide (mnemonic ∈ I_TYPE) then
        rd ← register_at operands 0;
        rs1 ← register_at operands 1;
        o2 ← index operands 2;
        imm ← parse_immediate o2 (Some (labels self)) 0 false;
        op ← as_int opcode;
        Ok (encode_i_type op rd rs1 imm)
      else if decide (mnemonic ∈ MEM_LOAD) then
        rd ← register_at operands 0;
        o1 ← index operands 1;
        '(offset, rs1) ← parse_memory_operand o1;
        op ← as_int opcode;
        Ok (encode_i_type op rd rs1 offset)
      else if decide (mnemonic ∈ MEM_STORE) then
        rs2 ← register_at operands 0;
        o1 ← index operands 1;
        '(offset, rs1) ← parse_memory_operand o1;
        op ← as_int opcode;
        Ok (encode_s_type op rs2 rs1 offset)
      else if decide (mnemonic ∈ B_TYPE) then
        rs1 ← register_at operands 0;
        rs2 ← register_at operands 1;
        o2 ← index operands 2;
        offset ← parse_immediate o2 (Some (labels self)) (current_address self) true;
        op ← as_int opcode;
        Ok (encode_b_type op rs1 rs2 offset)
      else if decide (mnemonic ∈ U_TYPE) then
        if decide (mnemonic = str "JAL") then
          rd ← register_at operands 0;
          o1 ← index operands 1;
          offset ← parse_immediate o1 (Some (labels self)) (current_address self) true;
          op ← as_int opcode;
          Ok (encode_u_type op rd offset)
        else
          rd ← register_at operands 0;
          o1 ← index operands 1;
          imm ← parse_immediate o1 (Some (labels self)) 0 false;
          op ← as_int opcode;
          Ok (encode_u_type op rd imm)
      else if decide (mnemonic ∈ CTRL_TYPE) then
        op ← as_int opcode;
        Ok (encode_ctrl op)
      else if decide (mnemonic ∈ FPU_R2) then
        rd ← register_at operands 0;
        rs1 ← register_at operands 1;
        rs2 ← register_at operands 2;
        op ← as_int opcode;
        Ok (encode_r_type op rd rs1 rs2)
      else if decide (mnemonic ∈ FPU_R1) then
        rd ← register_at operands 0;
        rs1 ← register_at operands 1;
        op ← as_int opcode;
        Ok (encode_r_type op rd rs1 0)
      else if decide (mnemonic ∈ FPU_R3) then
        rd ← register_at operands 0;
        rs1 ← register_at operands 1;
        rs2 ← register_at operands 2;
        rs3 ← register_at operands 3;
        op ← as_int opcode;
        Ok (encode_fpu_r3 op rd rs1 rs2 rs3)
      else Raise (UnhandledInstruction mnemonic)
  end.

(** ** Pass 1 *)

Definition set_label (self : Assembler) (name : text) : Assembler :=
  {| labels := <[name := current_address self]> (labels self);
     current_address := current_address self |}.

Definition advance (self : Assembler) : Assembler :=
  {| labels := labels self; current_address := current_address self + 4 |}.

(** The body of the loop of [first_pass]; a [continue] returns the state as
    it is. *)
Definition first_pass_line (self : Assembler) (line : text) : Assembler :=
  let line := strip (hd [] (split "#" line)) in
  if decide (line = []) then self
  else
    let after_label (self : Assembler) (line : text) :=
      if startswith (str ".") line then self else advance self in
    if contains ":" line then
      let parts := split ":" line in
      let self := set_label self (strip (hd [] parts)) in
      let line := strip (join ":" (tl parts)) in
      if decide (line = []) then self else after_label self line
    else after_label self line.

Definition first_pass (self : Assembler) (lines : list text) : Assembler :=
  fold_left first_pass_line lines
    {| labels := labels self; current_address := 0 |}.

(** ** Pass 2 *)

(** What [second_pass] prints before it raises the exception again:
    "Error at line {line_num}: {line}" and the exception. *)
Record diagnostic : Type := {
  diag_line_num : Z;
  diag_line : text;
  diag_error : error
}.

(** [second_pass] returns the machine code or leaves with the exception of
    the diagnostic. *)
Inductive outcome : Type :=
| Completed (machine_code : list Z)
| Aborted (d : diagnostic).

(** The head of the loop body of [second_pass]: the instruction text of a
    line, or [None] where the loop says [continue]. *)
Definition second_pass_scan (line : text) : option text :=
  let line := strip (hd [] (split "#" line)) in
  if decide (line = []) then None
  else
    let after_label (line : text) :=
      if startswith (str ".") line then None else Some line in
    if contains ":" line then
      let line := strip (join ":" (tl (split ":" line))) in
      if decide (line = []) then None else after_label line
    else after_label line.

Fixpoint second_pass_loop (self : Assembler) (machine_code : list Z)
    (line_num : Z) (lines : list text) : Assembler * outcome :=
  match lines with
  | [] => (self, Completed machine_code)
  | line :: rest =>
      match second_pass_scan line with
      | None => second_pass_loop self machine_code (line_num + 1) rest
      | Some line =>
          match assemble_instruction self line line_num with
          | Ok code =>
              second_pass_loop (advance self) (machine_code ++ [code])
                (line_num + 1) rest
          | Raise e =>
              (self, Aborted {| diag_line_num := line_num; diag_line := line;
                                diag_error := e |})
          end
      end
  end.

Definition second_pass (self : Assembler) (lines : list text)
  : Assembler * outcome :=
  second_pass_loop {| labels := labels self; current_address := 0 |} [] 1 lines.

Definition assemble (self : Assembler) (source : text) : Assembler * outcome :=
  let lines := split "010" source in
  let self := first_pass self lines in
  second_pass self lines.

(** ** Output formatter *)

(** [f'{code:08x}']: lowercase hexadecimal digits, the sign first, zeros up
    to a width of eight characters (more characters when they do not fit). *)
Definition hex_digits (n : Z) : text :=
  str (HexadecimalString.NilZero.string_of_uint (N.to_hex_uint (Z.to_N n))).

Definition format_08x (code : Z) : text :=
  let sign := if code <? 0 then str "-" else [] in
  let digits := hex_digits (Z.abs code) in
  sign ++ repeat "0"%char (8 - length sign - length digits) ++ digits.

Definition to_hex (machine_code : list Z) : text :=
  join "010" (map format_08x machine_code).

(** ** Bit fields of a word *)

(** Bits [hi..lo] of [w], as the layout tables write them. *)
Definition field (w hi lo : Z) : Z :=
  Z.land (Z.shiftr w lo) (Z.ones (hi - lo + 1)).

(** The R layout with every input masked to its field, as a reading of
    the rule that each field write masks its input. *)
Definition masked_r_type (opcode rd rs1 rs2 : Z) : Z :=
  Z.lor (Z.lor (Z.lor (Z.shiftl (Z.land opcode 0x3F) 26)
                      (Z.shiftl (Z.land rd 0x1F) 21))
               (Z.shiftl (Z.land rs1 0x1F) 16))
        (Z.shiftl (Z.land rs2 0x1F) 11).

(** ** Notions used to state the properties *)

(** The newline character. *)
Definition nl : ascii := "010".

(** The three-line example program with a label on a line of its own. *)
Definition start_program : text :=
  str "start:" ++ [nl] ++ str "  ADD X1, X2, X3" ++ [nl]
  ++ str "  ADDI X4, X1, 1".

(** The label that the loop body of [first_pass] records for a line. *)
Definition label_of (line : text) : option text :=
  let line := strip (hd [] (split "#" line)) in
  if decide (line = []) then None
  else if contains ":" line then Some (strip (hd [] (split ":" line)))
  else None.

(** Both succeed, or both raise the same exception. *)
Definition same_error {A : Type} (r r' : result A) : Prop :=
  match r, r' with
  | Ok _, Ok _ => True
  | Raise e, Raise e' => e = e'
  | _, _ => False
  end.

(** The instruction of the line raises an exception (at some address, hence
    at every address) when the label table is [table]. *)
Definition raises (table : gmap text Z) (raw : text) : Prop :=
  exists (instr : text) (e : error) (a n : Z),
    second_pass_scan raw = Some instr
    /\ assemble_instruction {| labels := table; current_address := a |} instr n
       = Raise e.

(** The number of operands of a mnemonic, after the operand order of its
    format variant in the layout table. *)
Definition arity (mnemonic : text) : option nat :=
  if decide (mnemonic = str "NOP") then Some 0%nat
  else if decide (mnemonic = str "MV") then Some 2%nat
  else if decide (mnemonic = str "LI") then Some 2%nat
  else if decide (mnemonic = str "J") then Some 1%nat
  else if decide (mnemonic ∈ R_TYPE) then
    if decide (mnemonic = str "NOT") then Some 2%nat else Some 3%nat
  else if decide (mnemonic ∈ I_TYPE) then Some 3%nat
  else if decide (mnemonic ∈ MEM_LOAD) then Some 2%nat
  else if decide (mnemonic ∈ MEM_STORE) then Some 2%nat
  else if decide (mnemonic ∈ B_TYPE) then Some 3%nat
  else if decide (mnemonic ∈ U_TYPE) then Some 2%nat
  else if decide (mnemonic ∈ CTRL_TYPE) then Some 0%nat
  else if decide (mnemonic ∈ FPU_R2) then Some 3%nat
  else if decide (mnemonic ∈ FPU_R1) then Some 2%nat
  else if decide (mnemonic ∈ FPU_R3) then Some 4%nat
  else None.

(** The kinds of operand in the layout table: a register, an immediate that
    may be a label (relative to the instruction or not), the immediate of LI
    (a literal: no label table is passed), and a memory operand. *)
Inductive operand_kind : Type :=
| RegisterOperand
| ImmediateOperand (relative : bool)
| LiteralOperand
| MemoryOperand.

(** The operands of a mnemonic, in the order of its format variant in the
    layout table. *)
Definition operand_kinds (mnemonic : text) : option (list operand_kind) :=
  if decide (mnemonic = str "NOP") then Some []
  else if decide (mnemonic = str "MV") then
    Some [RegisterOperand; RegisterOperand]
  else if decide (mnemonic = str "LI") then
    Some [RegisterOperand; LiteralOperand]
  else if decide (mnemonic = str "J") then Some [ImmediateOperand true]
  else if decide (mnemonic ∈ R_TYPE) then
    if decide (mnemonic = str "NOT") then
      Some [RegisterOperand; RegisterOperand]
    else Some [RegisterOperand; RegisterOperand; RegisterOperand]
  else if decide (mnemonic ∈ I_TYPE) then
    Some [RegisterOperand; RegisterOperand; ImmediateOperand false]
  else if decide (mnemonic ∈ MEM_LOAD) then
    Some [RegisterOperand; MemoryOperand]
  else if decide (mnemonic ∈ MEM_STORE) then
    Some [RegisterOperand; MemoryOperand]
  else if decide (mnemonic ∈ B_TYPE) then
    Some [RegisterOperand; RegisterOperand; ImmediateOperand true]
  else if decide (mnemonic ∈ U_TYPE) then
    if decide (mnemonic = str "JAL") then
      Some [RegisterOperand; ImmediateOperand true]
    else Some [RegisterOperand; ImmediateOperand false]
  else if decide (mnemonic ∈ CTRL_TYPE) then Some []
  else if decide (mnemonic ∈ FPU_R2) then
    Some [RegisterOperand; RegisterOperand; RegisterOperand]
  else if decide (mnemonic ∈ FPU_R1) then
    Some [RegisterOperand; RegisterOperand]
  else if decide (mnemonic ∈ FPU_R3) then
    Some [RegisterOperand; RegisterOperand; RegisterOperand; RegisterOperand]
  else None.

(** The exception that a computation raises, if it raises one. *)
Definition failure {A : Type} (r : result A) : option error :=
  match r with
  | Ok _ => None
  | Raise e => Some e
  end.

(** The exception, if any, of parsing one operand with the parser of its
    kind, in the state [self] of the assembler. *)
Definition operand_failure (self : Assembler) (kind : operand_kind) (o : text)
  : option error :=
  match kind with
  | RegisterOperand => failure (parse_register o)
  | ImmediateOperand relative =>
      failure (parse_immediate o (Some (labels self))
                 (if relative then current_address self else 0) relative)
  | LiteralOperand => failure (parse_immediate o None 0 false)
  | MemoryOperand => failure (parse_memory_operand o)
  end.

(** The exception of an operand list that is shorter than the kinds ask:
    the operands are parsed from left to right, the first one that fails
    gives its exception, and where the operands run out it is the indexing
    fault. *)
Fixpoint short_failure (self : Assembler) (kinds : list operand_kind)
    (operands : list text) : error :=
  match kinds, operands with
  | kind :: kinds', o :: operands' =>
      match operand_failure self kind o with
      | Some e => e
      | None => short_failure self kinds' operands'
      end
  | _, _ => IndexError
  end.

(** All the mnemonics that the format sets classify. *)
Definition format_sets : list text :=
  R_TYPE ++ I_TYPE ++ MEM_LOAD ++ MEM_STORE ++ B_TYPE ++ U_TYPE ++ CTRL_TYPE
  ++ FPU_R2 ++ FPU_R1 ++ FPU_R3.

(** The strings that a regular expression denotes. *)
Fixpoint lang (r : regex) (s : text) : Prop :=
  match r with
  | Lit c => s = [c]
  | Plus p => s <> [] /\ Forall (fun c => p c = true) s
  | Opt r => s = [] \/ lang r s
  | Seq r1 r2 => exists s1 s2, s = s1 ++ s2 /\ lang r1 s1 /\ lang r2 s2
  | Group _ r => lang r s
  end.

(** The syntax [[signed-integer](register)] in the words of its description:
    an optional minus sign and decimal digits, which may be left out
    together, then a register name in parentheses. *)
Definition memory_token (neg : bool) (digits reg : text) : text :=
  (if neg then str "-" else []) ++ digits ++ str "(" ++ reg ++ str ")".

(** The digits are digits, a sign needs digits, and the register name is a
    non-empty word. *)
Definition well_formed (neg : bool) (digits reg : text) : Prop :=
  Forall (fun c => isdigit c = true) digits
  /\ (neg = true -> digits <> [])
  /\ reg <> []
  /\ Forall (fun c => isword c = true) reg.

(** The number that decimal digits write. *)
Definition decimal (digits : text) : Z :=
  fold_left (fun acc c => acc * 10 + (ord c - 48)) digits 0.

(** The offset a token stands for; 0 when it has no digits. *)
Definition offset_value (neg : bool) (digits : text) : Z :=
  if neg then - decimal digits else decimal digits.

(** ** The annotated listing *)

(** [f'{n:04x}'], as [format_08x] with a width of four. *)
Definition format_04x (n : Z) : text :=
  let sign := if n <? 0 then str "-" else [] in
  let digits := hex_digits (Z.abs n) in
  sign ++ repeat "0"%char (4 - length sign - length digits) ++ digits.

(** The lines that the loop of [to_memh] appends, [i] being the index that
    [enumerate] has reached. *)
Fixpoint memh_lines (i : Z) (machine_code : list Z) : list text :=
  match machine_code with
  | [] => []
  | code :: rest =>
      (format_08x code ++ str "  // addr " ++ format_04x (i * 4))
      :: memh_lines (i + 1) rest
  end.

Definition to_memh (machine_code : list Z) : text :=
  join "010" ([str "// OpenGPU machine code"; []] ++ memh_lines 0 machine_code).

(** ** Further notions used to state the properties *)

(** A lowercase hexadecimal digit. *)
Definition ishex (c : ascii) : bool := in_range 48 57 c || in_range 97 102 c.

(** The number that hexadecimal digits write. *)
Definition hex_value (digits : text) : Z :=
  fold_left (fun acc c => acc * 16 + digit_value c) digits 0.





(** The opcode a line is encoded with: [OPCODES['ADDI']] for NOP, MV and LI,
    [OPCODES['JAL']] for J, and the entry of the mnemonic otherwise. *)
Definition effective_opcode (mnemonic : text) : option Z :=
  if decide (mnemonic = str "NOP") then Some 0x01
  else if decide (mnemonic = str "MV") then Some 0x01
  else if decide (mnemonic = str "LI") then Some 0x01
  else if decide (mnemonic = str "J") then Some 0x56
  else match OPCODES !! mnemonic with
       | Some opcode => opcode
       | None => None
       end.

(** [w] is the opcode [op] shifted to bit 26, with anything below. *)
Definition word_of (op w : Z) : Prop := 0 <= w - op * 2 ^ 26 < 2 ^ 26.

(** The place of a character in an alphabet, from 0. *)
Fixpoint position (c : ascii) (alphabet : text) : option Z :=
  match alphabet with
  | [] => None
  | a :: rest =>
      if Ascii.eqb c a then Some 0 else Z.succ <$> position c rest
  end.

(** The value of a digit, as the language reference gives it for integer
    literals: its place among the sixteen digits, the letters in either
    case. *)
Definition digit_of (c : ascii) : option Z :=
  match position c (str "0123456789abcdef") with
  | Some d => Some d
  | None => position c (str "0123456789ABCDEF")
  end.

(** The number that digits write in a base: the most significant digit
    first. *)
Definition number (base : Z) (digits : text) : Z :=
  fold_left (fun acc c => acc * base + default 0 (digit_of c)) digits 0.

(** Non-empty digits of a base. *)
Definition digits_of (base : Z) (digits : text) : Prop :=
  digits <> []
  /\ Forall (fun c => exists d, digit_of c = Some d /\ d < base) digits.

(** The token is not a key of the label table, if there is one. *)
Definition not_a_label (table : option (gmap text Z)) (tok : text) : Prop :=
  forall m, table = Some m -> m !! strip tok = None.

(** ** The command line

    [main] is modelled by the way it ends and by what it leaves in the
    output file.  The system it runs in is a parameter: the content of the
    input file, whether the output file can be opened and written, and
    whether each call of [print] succeeds.  What is printed is left out. *)

(** [s.replace(old, new)] for a non-empty [old]: the occurrences are found
    from left to right and do not overlap.  [skip] counts the characters of
    an occurrence that are still to be passed over. *)
Fixpoint replace_from (old new : text) (skip : nat) (s : text) : text :=
  match s with
  | [] => []
  | c :: s' =>
      match skip with
      | S k => replace_from old new k s'
      | O =>
          if startswith old s
          then new ++ replace_from old new (length old - 1) s'
          else c :: replace_from old new 0 s'
      end
  end.

Definition replace_str (old new s : text) : text := replace_from old new 0 s.

(** [read_file path] is what [open(path, 'r')] and [read()] return, [None]
    when one of them raises.  [open_w path] tells whether [open(path, 'w')]
    succeeds; the file is then empty.  [write_file path data] is [None] when
    [write(data)] and the close at the end of the [with] block succeed, and
    what the file holds when one of them raises.  [print_ok n] tells whether
    the call of [print] that is number [n] of the run, from 0, succeeds. *)
Record system : Type := {
  read_file : text -> option text;
  open_w : text -> bool;
  write_file : text -> text -> option text;
  print_ok : nat -> bool
}.

(** [sys.exit(status)], a normal return being status 0, or an exception that
    nothing catches. *)
Inductive termination : Type :=
| Exit (status : Z)
| Traceback.

(** [output] is the file that the run has created or overwritten, with its
    content. *)
Record main_result : Type := {
  ending : termination;
  output : option (text * text)
}.

(** The handler of [main]: "Assembly failed" is print number [n], then
    [sys.exit(1)]. *)
Definition assembly_failed (sys : system) (n : nat)
    (out : option (text * text)) : main_result :=
  {| ending := if print_ok sys n then Exit 1 else Traceback; output := out |}.

(** The prints of [main] after the file is written: the summary and, when
    there are labels, a heading and a line for each label. *)
Definition report_prints (asm : Assembler) : nat :=
  if decide (labels asm = ∅) then 1%nat else (2 + size (labels asm))%nat.

(** An assembly that aborts has printed once, in [second_pass] (if that
    print raises, its exception takes the place of the first one), so that
    the print of the handler is number 1. *)
Definition main (argv : list text) (sys : system) : main_result :=
  if (length argv <? 2)%nat then
    {| ending := if print_ok sys 0 then Exit 1 else Traceback; output := None |}
  else
    let input_file := nth 1 argv [] in
    let output_file :=
      if (2 <? length argv)%nat then nth 2 argv []
      else replace_str (str ".asm") (str ".hex") input_file in
    match read_file sys input_file with
    | None => {| ending := Traceback; output := None |}
    | Some source =>
        let '(asm, result) := assemble new_Assembler source in
        match result with
        | Aborted _ => assembly_failed sys 1 None
        | Completed machine_code =>
            if open_w sys output_file then
              match write_file sys output_file (to_memh machine_code) with
              | Some partial =>
                  assembly_failed sys 0 (Some (output_file, partial))
              | None =>
                  let written := Some (output_file, to_memh machine_code) in
                  match find (fun n => negb (print_ok sys n))
                          (seq 0 (report_prints asm)) with
                  | Some n => assembly_failed sys (S n) written
                  | None => {| ending := Exit 0; output := written |}
                  end
              end
            else assembly_failed sys 0 None
        end
    end.

(** [old in s] *)
Fixpoint occurs (old s : text) : bool :=
  startswith old s
  || match s with
     | [] => false
     | _ :: s' => occurs old s'
     end.

(** The system lets the run write [data] to [path]. *)
Definition writable (sys : system) (path data : text) : Prop :=
  open_w sys path = true /\ write_file sys path data = None.

(** * Properties *)

(** ** The tables *)

(** No key is written twice in the dictionaries, so that the order in which
    the entries are entered does not matter. *)
Lemma OPCODES_keys_NoDup : NoDup (map fst OPCODES_items).
Proof. apply (bool_decide_unpack _). vm_compute. exact I. Qed.

Lemma REGISTERS_keys_NoDup : NoDup (map fst REGISTERS_items).
Proof. apply (bool_decide_unpack _). vm_compute. exact I. Qed.

(** Register ids fit the five bits of a register field. *)
Lemma parse_register_range (reg_str : text) (r : Z) :
  parse_register reg_str = Ok r -> 0 <= r < 32.
Proof.
  unfold parse_register.
  destruct (REGISTERS !! strip (upper reg_str)) as [r' |] eqn:Hlook;
    [| discriminate].
  intros [= <-]. apply elem_of_list_to_map_2 in Hlook.
  assert (Hall : forallb (fun kv => (0 <=? snd kv) && (snd kv <? 32))
                   REGISTERS_items = true) by (vm_compute; reflexivity).
  rewrite forallb_forall in Hall.
  apply list_elem_of_In in Hlook. apply Hall in Hlook. cbn [snd] in Hlook.
  apply andb_prop in Hlook as [H1 H2].
  apply Z.leb_le in H1. apply Z.ltb_lt in H2. lia.
Qed.

(** ** Field confinement of the encoders *)

(** Replace the closed powers of two of the goal and of the context by their
    values, for [lia]. *)
Ltac eval_pow2 :=
  repeat match goal with
         | |- context [2 ^ ?n] =>
             let v := eval vm_compute in (2 ^ n) in change (2 ^ n) with v
         | H : context [2 ^ ?n] |- _ =>
             let v := eval vm_compute in (2 ^ n) in change (2 ^ n) with v in H
         end.

Lemma lor_shiftl_low (a b k : Z) :
  0 <= k -> 0 <= b < 2 ^ k -> Z.lor (Z.shiftl a k) b = a * 2 ^ k + b.
Proof.
  intros Hk Hb.
  rewrite Z.shiftl_mul_pow2 by lia.
  assert (Hland : Z.land (a * 2 ^ k) b = 0).
  { apply Z.bits_inj'. intros n Hn.
    rewrite Z.land_spec, Z.bits_0.
    destruct (Z.lt_ge_cases n k) as [Hlt | Hge].
    - rewrite Z.mul_pow2_bits_low by lia. reflexivity.
    - assert (Hb' : Z.testbit b n = false).
      { apply Z.testbit_false; [lia |].
        pose proof (Z.pow_le_mono_r 2 k n ltac:(lia) Hge).
        rewrite Z.div_small by lia. reflexivity. }
      rewrite Hb', andb_false_r. reflexivity. }
  rewrite <- Z.lxor_lor by exact Hland.
  symmetry. apply Z.add_nocarry_lxor. exact Hland.
Qed.

Lemma land_low_mask (v k : Z) :
  0 <= k -> Z.land v (Z.ones k) = v mod 2 ^ k.
Proof. intros Hk. apply Z.land_ones. exact Hk. Qed.

Lemma field_div_mod (w hi lo : Z) :
  0 <= lo -> lo <= hi + 1 -> field w hi lo = (w / 2 ^ lo) mod 2 ^ (hi - lo + 1).
Proof.
  intros Hlo Hhi. unfold field.
  rewrite Z.land_ones by lia. rewrite Z.shiftr_div_pow2 by lia. reflexivity.
Qed.

(** The three upper fields of the I, S and B layouts and of the R layouts,
    gathered into one number shifted as a whole. *)
Lemma upper3_regroup (opcode a b k k5 k10 : Z) :
  0 <= k -> k5 = k + 5 -> k10 = k + 10 ->
  Z.lor (Z.lor (Z.shiftl opcode k10) (Z.shiftl a k5)) (Z.shiftl b k)
  = Z.shiftl (Z.lor (Z.lor (Z.shiftl opcode 10) (Z.shiftl a 5)) b) k.
Proof.
  intros Hk -> ->. rewrite !Z.shiftl_lor, !Z.shiftl_shiftl by lia.
  rewrite (Z.add_comm 10 k), (Z.add_comm 5 k). reflexivity.
Qed.

Lemma upper2_regroup (opcode a k k5 : Z) :
  0 <= k -> k5 = k + 5 ->
  Z.lor (Z.shiftl opcode k5) (Z.shiftl a k)
  = Z.shiftl (Z.lor (Z.shiftl opcode 5) a) k.
Proof.
  intros Hk ->. rewrite !Z.shiftl_lor, !Z.shiftl_shiftl by lia.
  rewrite (Z.add_comm 5 k). reflexivity.
Qed.

Lemma encode_i_type_sum (opcode rd rs1 imm : Z) :
  encode_i_type opcode rd rs1 imm
  = Z.lor (Z.lor (Z.shiftl opcode 10) (Z.shiftl rd 5)) rs1 * 2 ^ 16
    + imm mod 2 ^ 16.
Proof.
  unfold encode_i_type.
  rewrite (upper3_regroup opcode rd rs1 16 21 26) by lia.
  change 0xFFFF with (Z.ones 16). rewrite land_low_mask by lia.
  apply lor_shiftl_low; [lia |]. apply Z.mod_pos_bound. lia.
Qed.

Lemma encode_u_type_sum (opcode rd imm : Z) :
  encode_u_type opcode rd imm
  = Z.lor (Z.shiftl opcode 5) rd * 2 ^ 21 + imm mod 2 ^ 21.
Proof.
  unfold encode_u_type.
  rewrite (upper2_regroup opcode rd 21 26) by lia.
  change 0x1FFFFF with (Z.ones 21). rewrite land_low_mask by lia.
  apply lor_shiftl_low; [lia |]. apply Z.mod_pos_bound. lia.
Qed.

Lemma pack3 (opcode a b : Z) :
  0 <= a < 32 -> 0 <= b < 32 ->
  Z.lor (Z.lor (Z.shiftl opcode 10) (Z.shiftl a 5)) b
  = opcode * 1024 + a * 32 + b.
Proof.
  intros Ha Hb.
  rewrite (upper2_regroup opcode a 5 10) by lia.
  rewrite (lor_shiftl_low _ b 5) by lia.
  rewrite (lor_shiftl_low opcode a 5) by lia.
  change (2 ^ 5) with 32. lia.
Qed.

Lemma pack2 (opcode a : Z) :
  0 <= a < 32 -> Z.lor (Z.shiftl opcode 5) a = opcode * 32 + a.
Proof.
  intros Ha. rewrite (lor_shiftl_low opcode a 5) by lia.
  change (2 ^ 5) with 32. lia.
Qed.

Lemma encode_r_type_sum (opcode rd rs1 rs2 : Z) :
  0 <= rd < 32 -> 0 <= rs1 < 32 -> 0 <= rs2 < 32 ->
  encode_r_type opcode rd rs1 rs2
  = opcode * 2 ^ 26 + rd * 2 ^ 21 + rs1 * 2 ^ 16 + rs2 * 2 ^ 11.
Proof.
  intros Hd H1 H2. unfold encode_r_type.
  rewrite (upper3_regroup opcode rd rs1 16 21 26) by lia.
  rewrite (upper2_regroup _ rs2 11 16) by lia.
  rewrite (lor_shiftl_low _ rs2 5) by lia.
  rewrite pack3 by lia.
  rewrite Z.shiftl_mul_pow2 by lia. eval_pow2.
  lia.
Qed.

Lemma encode_fpu_r3_sum (opcode rd rs1 rs2 rs3 : Z) :
  0 <= rd < 32 -> 0 <= rs1 < 32 -> 0 <= rs2 < 32 -> 0 <= rs3 < 32 ->
  encode_fpu_r3 opcode rd rs1 rs2 rs3
  = opcode * 2 ^ 26 + rd * 2 ^ 21 + rs1 * 2 ^ 16 + rs2 * 2 ^ 11 + rs3 * 2 ^ 6.
Proof.
  intros Hd H1 H2 H3. unfold encode_fpu_r3.
  fold (encode_r_type opcode rd rs1 rs2).
  rewrite encode_r_type_sum by lia.
  replace (opcode * 2 ^ 26 + rd * 2 ^ 21 + rs1 * 2 ^ 16 + rs2 * 2 ^ 11)
    with (Z.shiftl (opcode * 2 ^ 15 + rd * 2 ^ 10 + rs1 * 2 ^ 5 + rs2) 11)
    by (rewrite Z.shiftl_mul_pow2 by lia; eval_pow2; lia).
  rewrite (upper2_regroup _ rs3 6 11) by lia.
  rewrite pack2 by lia.
  rewrite !Z.shiftl_mul_pow2 by lia. eval_pow2. lia.
Qed.

(** Claim C1 fails as stated: the register fields are not masked.  With
    rd = 32 the R encoder writes into the opcode field, so the opcode field
    of the word is not the (masked) opcode and the word is not the packing
    of the masked inputs. *)
Lemma encode_r_type_rd_not_masked :
  ~ (forall opcode rd rs1 rs2 : Z,
        field (encode_r_type opcode rd rs1 rs2) 31 26 = Z.land opcode 0x3F
        /\ encode_r_type opcode rd rs1 rs2 = masked_r_type opcode rd rs1 rs2).
Proof.
  intros H. destruct (H 0 32 0 0) as [Hfield _].
  vm_compute in Hfield. discriminate Hfield.
Qed.

(** Claim C1, amended: every encoder masks its immediate or offset to the
    width of its field (16 bits in the I, S and B layouts, 21 bits in the U
    layout), so that any integer, positive or negative, wraps within the
    field and leaves the bits above it as they are without it; opcode and
    register ids are written unmasked, and each field of the word holds
    exactly its input, within a 32-bit word, when the opcode is in 0..63
    and the register ids are in 0..31. *)
Theorem encoders_confine_fields (opcode rd rs1 rs2 rs3 imm : Z) :
  (field (encode_i_type opcode rd rs1 imm) 15 0 = imm mod 2 ^ 16
   /\ Z.shiftr (encode_i_type opcode rd rs1 imm) 16
      = Z.shiftr (encode_i_type opcode rd rs1 0) 16)
  /\ (field (encode_s_type opcode rs2 rs1 imm) 15 0 = imm mod 2 ^ 16
      /\ Z.shiftr (encode_s_type opcode rs2 rs1 imm) 16
         = Z.shiftr (encode_s_type opcode rs2 rs1 0) 16)
  /\ (field (encode_b_type opcode rs1 rs2 imm) 15 0 = imm mod 2 ^ 16
      /\ Z.shiftr (encode_b_type opcode rs1 rs2 imm) 16
         = Z.shiftr (encode_b_type opcode rs1 rs2 0) 16)
  /\ (field (encode_u_type opcode rd imm) 20 0 = imm mod 2 ^ 21
      /\ Z.shiftr (encode_u_type opcode rd imm) 21
         = Z.shiftr (encode_u_type opcode rd 0) 21)
  /\ (0 <= opcode < 64 -> 0 <= rd < 32 -> 0 <= rs1 < 32 -> 0 <= rs2 < 32 ->
      0 <= rs3 < 32 ->
      (let w := encode_r_type opcode rd rs1 rs2 in
       field w 31 26 = opcode /\ field w 25 21 = rd /\ field w 20 16 = rs1
       /\ field w 15 11 = rs2 /\ field w 10 0 = 0 /\ 0 <= w < 2 ^ 32)
      /\ (let w := encode_i_type opcode rd rs1 imm in
          field w 31 26 = opcode /\ field w 25 21 = rd /\ field w 20 16 = rs1
          /\ field w 15 0 = imm mod 2 ^ 16 /\ 0 <= w < 2 ^ 32)
      /\ (let w := encode_s_type opcode rs2 rs1 imm in
          field w 31 26 = opcode /\ field w 25 21 = rs2 /\ field w 20 16 = rs1
          /\ field w 15 0 = imm mod 2 ^ 16 /\ 0 <= w < 2 ^ 32)
      /\ (let w := encode_b_type opcode rs1 rs2 imm in
          field w 31 26 = opcode /\ field w 25 21 = rs2 /\ field w 20 16 = rs1
          /\ field w 15 0 = imm mod 2 ^ 16 /\ 0 <= w < 2 ^ 32)
      /\ (let w := encode_u_type opcode rd imm in
          field w 31 26 = opcode /\ field w 25 21 = rd
          /\ field w 20 0 = imm mod 2 ^ 21 /\ 0 <= w < 2 ^ 32)
      /\ (let w := encode_ctrl opcode in
          field w 31 26 = opcode /\ field w 25 0 = 0 /\ 0 <= w < 2 ^ 32)
      /\ (let w := encode_fpu_r3 opcode rd rs1 rs2 rs3 in
          field w 31 26 = opcode /\ field w 25 21 = rd /\ field w 20 16 = rs1
          /\ field w 15 11 = rs2 /\ field w 10 6 = rs3 /\ field w 5 0 = 0
          /\ 0 <= w < 2 ^ 32)).
Proof.
  assert (HI : forall o a b i,
             field (encode_i_type o a b i) 15 0 = i mod 2 ^ 16
             /\ Z.shiftr (encode_i_type o a b i) 16
                = Z.shiftr (encode_i_type o a b 0) 16).
  { intros o a b i. rewrite field_div_mod by lia.
    rewrite !Z.shiftr_div_pow2 by lia. rewrite !encode_i_type_sum.
    generalize (Z.lor (Z.lor (Z.shiftl o 10) (Z.shiftl a 5)) b). intros u.
    pose proof (Z.mod_pos_bound i (2 ^ 16) ltac:(lia)) as Hi.
    revert Hi. generalize (i mod 2 ^ 16). intros m Hm.
    eval_pow2. change (0 mod 65536) with 0. change (15 - 0 + 1) with 16.
    eval_pow2. split; Z.div_mod_to_equations; lia. }
  assert (HU : forall o a i,
             field (encode_u_type o a i) 20 0 = i mod 2 ^ 21
             /\ Z.shiftr (encode_u_type o a i) 21
                = Z.shiftr (encode_u_type o a 0) 21).
  { intros o a i. rewrite field_div_mod by lia.
    rewrite !Z.shiftr_div_pow2 by lia. rewrite !encode_u_type_sum.
    generalize (Z.lor (Z.shiftl o 5) a). intros u.
    pose proof (Z.mod_pos_bound i (2 ^ 21) ltac:(lia)) as Hi.
    revert Hi. generalize (i mod 2 ^ 21). intros m Hm.
    eval_pow2. change (0 mod 2097152) with 0. change (20 - 0 + 1) with 21.
    eval_pow2. split; Z.div_mod_to_equations; lia. }
  split; [apply HI |]. split; [apply (HI opcode rs2 rs1 imm) |].
  split; [apply (HI opcode rs2 rs1 imm) |]. split; [apply HU |].
  intros Hop Hd H1 H2 H3.
  assert (HI' : forall a b, 0 <= a < 32 -> 0 <= b < 32 ->
             let w := encode_i_type opcode a b imm in
             field w 31 26 = opcode /\ field w 25 21 = a /\ field w 20 16 = b
             /\ field w 15 0 = imm mod 2 ^ 16 /\ 0 <= w < 2 ^ 32).
  { intros a b Ha Hb w. subst w. rewrite !field_div_mod by lia.
    rewrite encode_i_type_sum, pack3 by lia.
    pose proof (Z.mod_pos_bound imm (2 ^ 16) ltac:(lia)) as Hi.
    revert Hi. generalize (imm mod 2 ^ 16). intros m Hm.
    cbn [Z.sub Z.add Z.opp Z.pos_sub Pos.add Pos.succ Pos.pred_double
         Z.double Z.succ_double Z.pred_double Pos.add_carry].
    eval_pow2. repeat split; Z.div_mod_to_equations; lia. }
  split.
  { cbv zeta. rewrite !field_div_mod by lia.
    rewrite encode_r_type_sum by lia.
    cbn [Z.sub Z.add Z.opp Z.pos_sub Pos.add Pos.succ Pos.pred_double
         Z.double Z.succ_double Z.pred_double Pos.add_carry].
    eval_pow2. repeat split; Z.div_mod_to_equations; lia. }
  split; [apply HI'; lia |]. split; [apply (HI' rs2 rs1); lia |].
  split; [apply (HI' rs2 rs1); lia |].
  split.
  { cbv zeta. rewrite !field_div_mod by lia.
    rewrite encode_u_type_sum, pack2 by lia.
    pose proof (Z.mod_pos_bound imm (2 ^ 21) ltac:(lia)) as Hi.
    revert Hi. generalize (imm mod 2 ^ 21). intros m Hm.
    cbn [Z.sub Z.add Z.opp Z.pos_sub Pos.add Pos.succ Pos.pred_double
         Z.double Z.succ_double Z.pred_double Pos.add_carry].
    eval_pow2. repeat split; Z.div_mod_to_equations; lia. }
  split.
  { cbv zeta. rewrite !field_div_mod by lia. unfold encode_ctrl.
    rewrite Z.shiftl_mul_pow2 by lia.
    cbn [Z.sub Z.add Z.opp Z.pos_sub Pos.add Pos.succ Pos.pred_double
         Z.double Z.succ_double Z.pred_double Pos.add_carry].
    eval_pow2. repeat split; Z.div_mod_to_equations; lia. }
  cbv zeta. rewrite !field_div_mod by lia.
  rewrite encode_fpu_r3_sum by lia.
  cbn [Z.sub Z.add Z.opp Z.pos_sub Pos.add Pos.succ Pos.pred_double
       Z.double Z.succ_double Z.pred_double Pos.add_carry].
  eval_pow2. repeat split; Z.div_mod_to_equations; lia.
Qed.

Lemma encoders_confine_fields_witness :
  0 <= 48 < 64 /\ 0 <= 1 < 32 /\ 0 <= 2 < 32
  /\ field (encode_i_type 48 1 2 (-1)) 15 0 = 65535
  /\ field (encode_i_type 48 1 2 (-1)) 25 21 = 1
  /\ field (encode_u_type 48 1 (-1)) 20 0 = 2097151.
Proof.
  pose proof (encoders_confine_fields 48 1 2 3 4 (-1)) as H.
  destruct H as ((Hi & _) & _ & _ & (Hu & _) & H).
  destruct H as (_ & (_ & Hrd & _) & _); [lia | lia | lia | lia | lia |].
  repeat split; try lia; assumption.
Defined.

(** ** The example programs *)

(** Claim C3 fails as stated: the word of [LW X1, 8(X2)] is not
    0xC0221008. *)
Lemma lw_word_is_not_C0221008 :
  snd (assemble new_Assembler (str "LW X1, 8(X2)")) <> Completed [0xC0221008].
Proof. vm_compute. discriminate. Qed.

(** Claim C3, amended: assembling the single line [LW X1, 8(X2)] succeeds
    and produces exactly the word 0xC0220008 (opcode 0x30 in bits 31..26,
    rd = 1 in bits 25..21, rs1 = 2 in bits 20..16, offset 8 in bits
    15..0). *)
Theorem lw_word :
  snd (assemble new_Assembler (str "LW X1, 8(X2)")) = Completed [0xC0220008].
Proof. vm_compute. reflexivity. Qed.

(** Claim C5: the program [start:] / [ADD X1, X2, X3] / [ADDI X4, X1, 1]
    records the label [start] at address 0, emits no word for the line that
    holds only the label, and produces the words 0x00221800 and 0x04810001
    in that order. *)
Theorem start_program_words :
  labels (fst (assemble new_Assembler start_program)) !! str "start" = Some 0
  /\ snd (assemble new_Assembler start_program)
     = Completed [0x00221800; 0x04810001]
  /\ second_pass_scan (str "start:") = None
  /\ snd (assemble new_Assembler (str "start:")) = Completed [].
Proof. vm_compute. repeat split; reflexivity. Qed.

(** Claim C4 at [LUI X1, 0]: the opcode 0x69 of the table does not fit the
    six bits of the opcode field, the word is 0x1A4200000, which is not
    below 2^32, and the formatter renders it with nine digits. *)
Theorem lui_word_exceeds_32_bits :
  snd (assemble new_Assembler (str "LUI X1, 0")) = Completed [0x1A4200000]
  /\ 2 ^ 32 <= 0x1A4200000
  /\ to_hex [0x1A4200000] = str "1a4200000"
  /\ length (to_hex [0x1A4200000]) = 9%nat.
Proof. vm_compute. repeat split; try reflexivity. discriminate. Qed.

(** ** Operand tokens *)

Lemma lstrip_no_space (w : text) :
  Forall (fun c => isspace c = false) w -> lstrip w = w.
Proof. intros H. destruct H as [| c w Hc _]; simpl; [| rewrite Hc]; reflexivity. Qed.

Lemma strip_no_space (w : text) :
  Forall (fun c => isspace c = false) w -> strip w = w.
Proof.
  intros H. unfold strip, rstrip.
  rewrite (lstrip_no_space w H).
  rewrite lstrip_no_space by (apply Forall_rev; exact H).
  apply rev_involutive.
Qed.

Lemma words_no_space (s : text) :
  Forall (fun w => w <> [] /\ Forall (fun c => isspace c = false) w) (words s).
Proof.
  induction s as [| c s IH]; simpl; [constructor |].
  destruct (isspace c) eqn:Hc; [exact IH |].
  destruct s as [| c' s']; [repeat constructor; [discriminate | exact Hc] |].
  destruct (isspace c') eqn:Hc'.
  - constructor; [| exact IH]. split; [discriminate | repeat constructor; exact Hc].
  - destruct (words (c' :: s')) as [| w ws].
    + repeat constructor; [discriminate | exact Hc].
    + inversion IH as [| ? ? [Hne Hw] Hws]; subst.
      constructor; [| exact Hws]. split; [discriminate |].
      constructor; [exact Hc | exact Hw].
Qed.

(** The tokens of a line are already trimmed. *)
Lemma words_strip (s w : text) : w ∈ words s -> strip w = w.
Proof.
  intros Hin. apply strip_no_space.
  pose proof (words_no_space s) as H.
  rewrite Forall_forall in H. apply H. exact Hin.
Qed.

(** ** Labels before literals *)

(** Claim C10: in [parse_immediate] the label lookup comes before the
    numeric parse.  A token that (trimmed, as the function first does; the
    tokens of an operand list are trimmed already, [words_strip]) is a key of
    the supplied label table gives the recorded address, or the address minus
    the current address when relative, whatever it would mean as a number. *)
Theorem label_lookup_precedes_literal
    (tok : text) (table : gmap text Z) (a current_addr : Z) (relative : bool) :
  table !! strip tok = Some a ->
  parse_immediate tok (Some table) current_addr relative
  = Ok (if relative then a - current_addr else a).
Proof.
  intros Hkey. unfold parse_immediate.
  destruct (decide (table = ∅)) as [-> | _].
  - rewrite lookup_empty in Hkey. discriminate Hkey.
  - rewrite Hkey. reflexivity.
Qed.

(** A label named [0x10]: the literal would be 16, the label is at 100. *)
Lemma label_lookup_precedes_literal_witness :
  py_int (str "0x10") 16 = Some 16
  /\ parse_immediate (str "0x10") (Some {[ str "0x10" := 100 ]}) 4 true = Ok 96
  /\ parse_immediate (str "0x10") (Some {[ str "0x10" := 100 ]}) 4 false = Ok 100.
Proof.
  split; [reflexivity |]. split.
  - apply (label_lookup_precedes_literal (str "0x10") {[ str "0x10" := 100 ]}
             100 4 true).
    vm_compute. reflexivity.
  - apply (label_lookup_precedes_literal (str "0x10") {[ str "0x10" := 100 ]}
             100 4 false).
    vm_compute. reflexivity.
Defined.

(** ** The LI pseudo-instruction *)

Lemma bind_Ok {A B : Type} (a : A) (k : A -> result B) : (Ok a ≫= k) = k a.
Proof. reflexivity. Qed.

Lemma bind_Raise {A B : Type} (e : error) (k : A -> result B) :
  (Raise e ≫= k) = Raise e.
Proof. reflexivity. Qed.

Lemma opcode_of_ADDI : opcode_of (str "ADDI") = Ok (Some 1).
Proof. vm_compute. reflexivity. Qed.

Lemma register_at_0 (o : text) (os : list text) :
  register_at (o :: os) 0 = parse_register o.
Proof. reflexivity. Qed.

Lemma register_at_S (o : text) (os : list text) (i : nat) :
  register_at (o :: os) (S i) = register_at os i.
Proof. reflexivity. Qed.





(** ** The two passes agree *)

Lemma first_pass_line_labels (self : Assembler) (line : text) :
  labels (first_pass_line self line)
  = match label_of line with
    | Some name => <[name := current_address self]> (labels self)
    | None => labels self
    end.
Proof.
  unfold first_pass_line, label_of.
  repeat (case_decide || case_match); reflexivity.
Qed.

(** Pass 1 advances the address on a line exactly when the scan of pass 2
    finds an instruction on it. *)
Lemma first_pass_line_address (self : Assembler) (line : text) :
  current_address (first_pass_line self line)
  = current_address self + match second_pass_scan line with Some _ => 4 | None => 0 end.
Proof.
  unfold first_pass_line, second_pass_scan.
  repeat (case_decide || case_match); simplify_eq; cbn; lia.
Qed.

Lemma first_pass_loop_app (s : Assembler) (l1 l2 : list text) :
  fold_left first_pass_line (l1 ++ l2) s
  = fold_left first_pass_line l2 (fold_left first_pass_line l1 s).
Proof. apply fold_left_app. Qed.

(** A label that no later line defines keeps its address. *)
Lemma first_pass_loop_keeps (name : text) (lines : list text) (s : Assembler) :
  Forall (fun l => label_of l <> Some name) lines ->
  labels (fold_left first_pass_line lines s) !! name = labels s !! name.
Proof.
  revert s. induction lines as [| l lines IH]; intros s Hall; [reflexivity |].
  inversion Hall as [| ? ? Hl Hrest]; subst. cbn [fold_left].
  rewrite IH by exact Hrest. rewrite first_pass_line_labels.
  destruct (label_of l) as [name' |]; [| reflexivity].
  apply lookup_insert_ne. congruence.
Qed.

(** Pass 2 over [l1 ++ l2] is pass 2 over [l1], continued over [l2] from the
    state it reached unless it has aborted. *)
Lemma second_pass_loop_app (l1 l2 : list text) (self : Assembler)
    (code : list Z) (n : Z) :
  second_pass_loop self code n (l1 ++ l2)
  = match second_pass_loop self code n l1 with
    | (self', Completed code') =>
        second_pass_loop self' code' (n + Z.of_nat (length l1)) l2
    | (self', Aborted d) => (self', Aborted d)
    end.
Proof.
  revert self code n. induction l1 as [| l l1 IH]; intros self code n.
  - cbn. f_equal. lia.
  - cbn [app second_pass_loop length].
    destruct (second_pass_scan l) as [instr |].
    + destruct (assemble_instruction self instr n); [| reflexivity].
      rewrite IH. repeat case_match; try reflexivity. f_equal. lia.
    + rewrite IH. repeat case_match; try reflexivity. f_equal. lia.
Qed.

Lemma second_pass_loop_completed (lines : list text) (self : Assembler)
    (code : list Z) (n : Z) (self' : Assembler) (code' : list Z) :
  second_pass_loop self code n lines = (self', Completed code') ->
  labels self' = labels self
  /\ current_address self' - 4 * Z.of_nat (length code')
     = current_address self - 4 * Z.of_nat (length code)
  /\ forall s1 : Assembler,
       current_address s1 = current_address self ->
       current_address (fold_left first_pass_line lines s1)
       = current_address self'.
Proof.
  revert self code n. induction lines as [| l lines IH]; intros self code n Hrun.
  - cbn in Hrun. simplify_eq. repeat split; auto.
  - cbn [second_pass_loop] in Hrun.
    destruct (second_pass_scan l) as [instr |] eqn:Hscan.
    + destruct (assemble_instruction self instr n) as [w | e]; [| discriminate].
      apply IH in Hrun as (Hlab & Hlen & Hfold).
      split; [exact Hlab |]. split.
      * rewrite Hlen. rewrite length_app. cbn. lia.
      * intros s1 Hs1. cbn [fold_left]. apply Hfold.
        rewrite first_pass_line_address, Hscan. cbn. lia.
    + apply IH in Hrun as (Hlab & Hlen & Hfold).
      split; [exact Hlab |]. split; [exact Hlen |].
      intros s1 Hs1. cbn [fold_left]. apply Hfold.
      rewrite first_pass_line_address, Hscan. lia.
Qed.

(** Claim C2: the two passes scan a line in the same way and advance the
    address on the same lines.  Whenever pass 2 has come through the lines
    [pre] of a program [pre ++ post], its address counter is the one pass 1
    had after the same lines (four times the number of words emitted) and its
    label table is the one pass 1 built; on the next line pass 1 advances by
    4 exactly when the scan of pass 2 finds an instruction; a label that this
    line defines (and no later line defines again) is recorded in pass 1 at
    the address pass 2 has there; and a relative reference to a label from
    this point resolves to the address recorded in pass 1 minus that address.
    Nothing depends on the references being forward or backward. *)
Theorem pass_consistency
    (self : Assembler) (pre post : list text) (self2 : Assembler)
    (code : list Z) :
  second_pass (first_pass self (pre ++ post)) pre = (self2, Completed code) ->
  current_address (first_pass self pre) = current_address self2
  /\ current_address self2 = 4 * Z.of_nat (length code)
  /\ labels self2 = labels (first_pass self (pre ++ post))
  /\ (forall (tok : text) (a : Z),
         labels (first_pass self (pre ++ post)) !! strip tok = Some a ->
         parse_immediate tok (Some (labels self2)) (current_address self2) true
         = Ok (a - current_address (first_pass self pre)))
  /\ forall (raw : text) (post' : list text),
       post = raw :: post' ->
       current_address (first_pass_line (first_pass self pre) raw)
       = current_address self2
         + match second_pass_scan raw with Some _ => 4 | None => 0 end
       /\ forall name : text,
            label_of raw = Some name ->
            Forall (fun l => label_of l <> Some name) post' ->
            labels (first_pass self (pre ++ post)) !! name
            = Some (current_address self2).
Proof.
  unfold second_pass. intros Hrun.
  apply second_pass_loop_completed in Hrun as (Hlab & Hlen & Hfold).
  cbn in Hlen, Hlab.
  assert (Haddr : current_address (first_pass self pre) = current_address self2).
  { unfold first_pass. apply Hfold. reflexivity. }
  split; [exact Haddr |]. split; [lia |]. split; [exact Hlab |]. split.
  - intros tok a Hkey. rewrite Hlab, Haddr. unfold parse_immediate.
    destruct (decide (labels (first_pass self (pre ++ post)) = ∅)) as [He | _].
    + rewrite He, lookup_empty in Hkey. discriminate Hkey.
    + rewrite Hkey. reflexivity.
  - intros raw post' ->. split.
    + rewrite first_pass_line_address. rewrite Haddr. reflexivity.
    + intros name Hdef Hlater. unfold first_pass.
      rewrite first_pass_loop_app. cbn [fold_left].
      rewrite first_pass_loop_keeps by exact Hlater.
      rewrite first_pass_line_labels, Hdef.
      rewrite lookup_insert_eq. f_equal. exact Haddr.
Qed.

Lemma pass_consistency_witness :
  labels (first_pass new_Assembler
            [str "  NOP"; str "loop: ADD X1, X2, X3"; str "  J loop"])
    !! str "loop" = Some 4.
Proof.
  pose proof (pass_consistency new_Assembler [str "  NOP"]
                [str "loop: ADD X1, X2, X3"; str "  J loop"]
                {| labels := {[ str "loop" := 4 ]}; current_address := 4 |}
                [encode_i_type 1 0 0 0]) as H.
  destruct H as (_ & _ & _ & _ & H); [vm_compute; reflexivity |].
  destruct (H (str "loop: ADD X1, X2, X3") [str "  J loop"] eq_refl) as [_ Hl].
  apply (Hl (str "loop")); [vm_compute; reflexivity |].
  repeat constructor; vm_compute; discriminate.
Defined.

(** ** Errors do not depend on the address *)

Lemma same_error_refl {A : Type} (r : result A) : same_error r r.
Proof. destruct r; simpl; auto. Qed.

Lemma same_error_bind {A B : Type} (r r' : result A) (k k' : A -> result B) :
  same_error r r' ->
  (forall x x', same_error (k x) (k' x')) ->
  same_error (r ≫= k) (r' ≫= k').
Proof.
  intros Hr Hk. destruct r, r'; simpl in Hr; try contradiction.
  - apply Hk.
  - exact Hr.
Qed.

Lemma same_error_bind_eq {A B : Type} (r : result A) (k k' : A -> result B) :
  (forall x, same_error (k x) (k' x)) -> same_error (r ≫= k) (r ≫= k').
Proof. intros Hk. destruct r; [apply Hk | reflexivity]. Qed.

Lemma parse_immediate_same_error
    (tok : text) (table : option (gmap text Z)) (a a' : Z) (rel : bool) :
  same_error (parse_immediate tok table a rel) (parse_immediate tok table a' rel).
Proof.
  unfold parse_immediate.
  repeat (case_match || case_decide); simpl; auto.
Qed.

Lemma same_error_Ok {A : Type} (x y : A) : same_error (Ok x) (Ok y).
Proof. exact I. Qed.

Lemma same_error_Raise {A : Type} (e : error) :
  same_error (@Raise A e) (Raise e).
Proof. reflexivity. Qed.

Ltac same_error_step :=
  lazymatch goal with
  | |- same_error (Ok _) (Ok _) => apply same_error_Ok
  | |- same_error (Raise _) (Raise _) => apply same_error_Raise
  | |- same_error (?r ≫= _) (?r ≫= _) => apply same_error_bind_eq; intros ?
  | |- same_error (parse_immediate _ _ _ _ ≫= _)
                  (parse_immediate _ _ _ _ ≫= _) =>
      apply same_error_bind; [apply parse_immediate_same_error | intros ? ?]
  | |- same_error (if decide ?P then _ else _) _ => destruct (decide P)
  | |- same_error (if ?b then _ else _) _ => destruct b
  | |- same_error (match ?x with _ => _ end) _ => destruct x
  end.

Lemma assemble_instruction_same_error
    (table : gmap text Z) (a a' : Z) (line : text) (n n' : Z) :
  same_error
    (assemble_instruction {| labels := table; current_address := a |} line n)
    (assemble_instruction {| labels := table; current_address := a' |} line n').
Proof.
  unfold assemble_instruction. cbn [labels current_address].
  repeat same_error_step.
Qed.

(** ** Abort at the first error *)

Lemma raises_anywhere (table : gmap text Z) (instr : text) (e : error)
    (a n a' n' : Z) :
  assemble_instruction {| labels := table; current_address := a |} instr n
  = Raise e ->
  assemble_instruction {| labels := table; current_address := a' |} instr n'
  = Raise e.
Proof.
  intros H.
  pose proof (assemble_instruction_same_error table a a' instr n n') as Hs.
  rewrite H in Hs.
  destruct (assemble_instruction _ instr n'); simpl in Hs;
    [contradiction | congruence].
Qed.

Lemma raises_dec (table : gmap text Z) (raw : text) :
  {raises table raw} + {~ raises table raw}.
Proof.
  destruct (second_pass_scan raw) as [instr |] eqn:Hscan.
  - destruct (assemble_instruction
                {| labels := table; current_address := 0 |} instr 0)
      as [w | e] eqn:Hrun.
    + right. intros (instr' & e & a & n & Hs & Hr).
      rewrite Hscan in Hs. injection Hs as <-.
      apply (raises_anywhere _ _ _ _ _ 0 0) in Hr. congruence.
    + left. exists instr, e, 0, 0. auto.
  - right. intros (instr' & e & a & n & Hs & _). congruence.
Qed.

Lemma first_raising_line (table : gmap text Z) (lines : list text) :
  Exists (raises table) lines ->
  exists pre raw post,
    lines = pre ++ raw :: post
    /\ Forall (fun l => ~ raises table l) pre
    /\ raises table raw.
Proof.
  induction lines as [| l lines IH]; intros Hex; [inversion Hex |].
  destruct (raises_dec table l) as [Hl | Hl].
  - exists [], l, lines. repeat split; [constructor | exact Hl].
  - inversion Hex as [? ? Hhere | ? ? Hlater]; subst; [contradiction |].
    destruct (IH Hlater) as (pre & raw & post & -> & Hpre & Hraw).
    exists (l :: pre), raw, post. repeat split; [| exact Hraw].
    constructor; assumption.
Qed.

Lemma second_pass_loop_no_error (lines : list text) (self : Assembler)
    (code : list Z) (n : Z) :
  Forall (fun l => ~ raises (labels self) l) lines ->
  exists self' code',
    second_pass_loop self code n lines = (self', Completed code')
    /\ labels self' = labels self.
Proof.
  revert self code n.
  induction lines as [| l lines IH]; intros self code n Hall.
  - exists self, code. split; reflexivity.
  - inversion Hall as [| ? ? Hl Hrest]; subst. cbn [second_pass_loop].
    destruct (second_pass_scan l) as [instr |] eqn:Hscan.
    + destruct (assemble_instruction self instr n) as [w | e] eqn:Hrun.
      * destruct (IH (advance self) (code ++ [w]) (n + 1) Hrest)
          as (self' & code' & Hloop & Hlab).
        exists self', code'. split; [exact Hloop | exact Hlab].
      * exfalso. apply Hl. exists instr, e, (current_address self), n.
        split; [exact Hscan |]. destruct self. exact Hrun.
    + apply IH. exact Hrest.
Qed.

(** Claim C8 fails as stated: the diagnostic does not carry the raw text of
    the line but what is left of it once the comment, the label and the
    surrounding space are gone. *)
Lemma diagnostic_line_is_not_raw :
  exists d : diagnostic,
    snd (assemble new_Assembler (str "  x: ADD X1, X2, Y9  # oops")) = Aborted d
    /\ diag_line_num d = 1
    /\ diag_line d = str "ADD X1, X2, Y9"
    /\ diag_line d <> str "  x: ADD X1, X2, Y9  # oops".
Proof.
  eexists. split; [vm_compute; reflexivity |].
  repeat split. vm_compute. discriminate.
Qed.

(** Claim C8, amended: when some instruction line of a program raises an
    exception in a parser or an encoder, the assembly aborts at the first
    such line: no word sequence is returned, and the diagnostic carries the
    1-based number of that line, its instruction text as pass 2 scanned it
    (comment, label prefix and surrounding whitespace removed, not the raw
    line) and the exception. *)
Theorem abort_at_first_error (self : Assembler) (source : text) :
  let lines := split "010" source in
  let table := labels (first_pass self lines) in
  Exists (raises table) lines ->
  exists (pre : list text) (raw : text) (post : list text) (instr : text)
         (e : error),
    lines = pre ++ raw :: post
    /\ Forall (fun l => ~ raises table l) pre
    /\ second_pass_scan raw = Some instr
    /\ (forall a n,
          assemble_instruction {| labels := table; current_address := a |}
            instr n = Raise e)
    /\ snd (assemble self source)
       = Aborted {| diag_line_num := Z.of_nat (length pre) + 1;
                    diag_line := instr;
                    diag_error := e |}.
Proof.
  intros lines table Hex.
  destruct (first_raising_line table lines Hex)
    as (pre & raw & post & Hlines & Hpre & Hraw).
  destruct Hraw as (instr & e & a & n & Hscan & Hrun).
  exists pre, raw, post, instr, e.
  split; [exact Hlines |]. split; [exact Hpre |]. split; [exact Hscan |].
  split; [intros a' n'; exact (raises_anywhere _ _ _ _ _ _ _ Hrun) |].
  unfold assemble, second_pass. fold lines. fold table. rewrite Hlines.
  rewrite second_pass_loop_app.
  destruct (second_pass_loop_no_error pre
              {| labels := table; current_address := 0 |} [] 1 Hpre)
    as (self' & code' & Hloop & Hlab).
  rewrite Hloop. cbn [second_pass_loop]. rewrite Hscan.
  destruct self' as [table' addr']. cbn in Hlab. subst table'.
  rewrite (raises_anywhere _ _ _ _ _ addr' (1 + Z.of_nat (length pre)) Hrun).
  cbn [snd]. do 2 f_equal. lia.
Qed.

Lemma abort_at_first_error_witness :
  exists (pre : list text) (raw : text) (post : list text) (instr : text)
         (e : error),
    split "010" (str "NOP" ++ [nl] ++ str "ADD X1, X2, Y9") = pre ++ raw :: post
    /\ snd (assemble new_Assembler (str "NOP" ++ [nl] ++ str "ADD X1, X2, Y9"))
       = Aborted {| diag_line_num := Z.of_nat (length pre) + 1;
                    diag_line := instr;
                    diag_error := e |}.
Proof.
  destruct (abort_at_first_error new_Assembler
              (str "NOP" ++ [nl] ++ str "ADD X1, X2, Y9"))
    as (pre & raw & post & instr & e & H1 & _ & _ & _ & H2).
  - apply Exists_cons_tl. apply Exists_cons_hd.
    exists (str "ADD X1, X2, Y9"), (UnknownRegister (str "Y9")), 0, 0.
    split; vm_compute; reflexivity.
  - exists pre, raw, post, instr, e. split; [exact H1 | exact H2].
Defined.

(** ** Missing operands *)

Lemma format_sets_in_table (m : text) :
  m ∈ format_sets -> OPCODES !! m <> None.
Proof.
  assert (H : forallb (fun m => bool_decide (OPCODES !! m <> None)) format_sets
              = true) by (vm_compute; reflexivity).
  rewrite forallb_forall in H. intros Hin.
  apply list_elem_of_In in Hin. apply H in Hin.
  apply bool_decide_eq_true in Hin. exact Hin.
Qed.

Lemma index_nil {A : Type} (i : nat) : index (@nil A) i = Raise IndexError.
Proof. destruct i; reflexivity. Qed.

Lemma index_0 {A : Type} (a : A) (l : list A) : index (a :: l) 0 = Ok a.
Proof. reflexivity. Qed.

Lemma index_S {A : Type} (a : A) (l : list A) (i : nat) :
  index (a :: l) (S i) = index l i.
Proof. reflexivity. Qed.

Lemma register_at_nil (i : nat) : register_at [] i = Raise IndexError.
Proof. unfold register_at. rewrite index_nil. reflexivity. Qed.

(** The arity is the number of operand kinds. *)
Lemma arity_operand_kinds (mnemonic : text) :
  arity mnemonic = length <$> operand_kinds mnemonic.
Proof.
  unfold arity, operand_kinds. repeat case_decide; reflexivity.
Qed.

Ltac short_step :=
  rewrite ?opcode_of_ADDI, ?register_at_S, ?register_at_0, ?register_at_nil,
    ?index_S, ?index_0, ?index_nil, ?bind_Ok, ?bind_Raise;
  cbn [short_failure operand_failure failure];
  lazymatch goal with
  | |- Raise _ = Raise _ => reflexivity
  | |- (parse_register ?o ≫= _) = _ =>
      destruct (parse_register o) as [? | ?]
  | |- (parse_memory_operand ?o ≫= _) = _ =>
      destruct (parse_memory_operand o) as [[? ?] | ?]
  | |- (parse_immediate ?o ?t ?a ?r ≫= _) = _ =>
      destruct (parse_immediate o t a r) as [? | ?]
  end.

(** With fewer operands than kinds, a line raises the exception of
    [short_failure]. *)
Lemma short_operands_failure
    (self : Assembler) (line : text) (line_num : Z)
    (m : text) (operands : list text) (kinds : list operand_kind) :
  words (replace "," " " line) = m :: operands ->
  operand_kinds (upper m) = Some kinds ->
  (length operands < length kinds)%nat ->
  assemble_instruction self line line_num
  = Raise (short_failure self kinds operands).
Proof.
  intros Hparts Hkinds Hlen.
  unfold assemble_instruction. rewrite Hparts, index_0, bind_Ok. cbn [tl].
  unfold operand_kinds in Hkinds. set (mn := upper m) in *. clearbody mn.
  clear Hparts. revert Hkinds Hlen.
  assert (Htable : mn ∈ format_sets -> OPCODES !! mn <> None)
    by apply format_sets_in_table.
  unfold format_sets in Htable. rewrite !elem_of_app in Htable.
  repeat case_decide; intros Hkinds Hlen; simplify_eq;
    try match goal with
        | |- context [OPCODES !! ?x] =>
            destruct (OPCODES !! x) as [opcode |];
            [| exfalso; apply Htable; [tauto | reflexivity]]
        end;
    destruct operands as [| o0 [| o1 [| o2 [| o3 operands]]]];
    cbn [length] in Hlen; try lia.
  all: repeat short_step.
Qed.

(** When every operand that is there parses, the exception is the indexing
    fault. *)
Lemma short_failure_index (self : Assembler) (kinds : list operand_kind)
    (operands : list text) :
  Forall2 (fun kind o => operand_failure self kind o = None)
    (take (length operands) kinds) operands ->
  (length operands < length kinds)%nat ->
  short_failure self kinds operands = IndexError.
Proof.
  revert kinds. induction operands as [| o operands IH]; intros kinds Hall Hlen.
  - destruct kinds; reflexivity.
  - destruct kinds as [| kind kinds]; [cbn in Hlen; lia |].
    cbn [length take] in Hall. inversion Hall as [| ? ? ? ? Ho Hrest]; subst.
    cbn [short_failure]. rewrite Ho. apply IH; [exact Hrest |].
    cbn [length] in Hlen. lia.
Qed.

(** Otherwise it is the exception of the first operand that does not
    parse. *)
Lemma short_failure_operand (self : Assembler) (kinds : list operand_kind)
    (operands : list text) (e : error) :
  short_failure self kinds operands = e -> e <> IndexError ->
  exists (i : nat) (kind : operand_kind) (o : text),
    kinds !! i = Some kind /\ operands !! i = Some o
    /\ operand_failure self kind o = Some e
    /\ forall (j : nat) (kind' : operand_kind) (o' : text),
         (j < i)%nat -> kinds !! j = Some kind' -> operands !! j = Some o' ->
         operand_failure self kind' o' = None.
Proof.
  revert operands. induction kinds as [| kind kinds IH]; intros operands He Hne.
  - cbn in He. congruence.
  - destruct operands as [| o operands]; [cbn in He; congruence |].
    cbn [short_failure] in He.
    destruct (operand_failure self kind o) as [e' |] eqn:Ho.
    + subst e'. exists 0%nat, kind, o. repeat split; try assumption.
      intros j kind' o' Hj. lia.
    + destruct (IH operands He Hne) as (i & kind1 & o1 & Hk & Hop & Hf & Hbefore).
      exists (S i), kind1, o1. repeat split; try assumption.
      intros [| j] kind' o' Hj Hk' Ho'.
      * cbn in Hk', Ho'. simplify_eq. exact Ho.
      * cbn in Hk', Ho'. apply (Hbefore j kind' o'); [lia | assumption ..].
Qed.

(** Claim C7 fails as stated: [ADD X1, X2] has two operands for the three of
    its format, and what the line raises is the indexing fault of
    [operands[2]]; the assembler has no error of its own for the case. *)
Lemma short_add_raises_index_error :
  arity (upper (str "ADD")) = Some 3%nat
  /\ assemble_instruction new_Assembler (str "ADD X1, X2") 1 = Raise IndexError
  /\ snd (assemble new_Assembler (str "ADD X1, X2"))
     = Aborted {| diag_line_num := 1; diag_line := str "ADD X1, X2";
                  diag_error := IndexError |}.
Proof. vm_compute. repeat split; reflexivity. Qed.

(** Claim C7, amended: a line with fewer operands than the arity of its
    mnemonic's format never assembles, and there is no operand-count error.
    The operands that are there are parsed from left to right, each by the
    parser of its position in the format.  When they all parse, the line
    raises the indexing fault of the first missing operand; otherwise it
    raises the exception of the first operand that does not parse (unknown
    register, immediate or memory operand).  When pass 2 reaches such a line
    as line [n], it stops with the diagnostic that carries [n], the
    instruction text and that exception, and returns no word. *)
Theorem missing_operand_is_index_error
    (self : Assembler) (line : text) (line_num : Z)
    (m : text) (operands : list text) (k : nat) :
  words (replace "," " " line) = m :: operands ->
  arity (upper m) = Some k ->
  (length operands < k)%nat ->
  exists (kinds : list operand_kind) (e : error),
    operand_kinds (upper m) = Some kinds
    /\ length kinds = k
    /\ assemble_instruction self line line_num = Raise e
    /\ e = short_failure self kinds operands
    /\ (Forall2 (fun kind o => operand_failure self kind o = None)
          (take (length operands) kinds) operands ->
        e = IndexError)
    /\ (e <> IndexError ->
        exists (i : nat) (kind : operand_kind) (o : text),
          kinds !! i = Some kind /\ operands !! i = Some o
          /\ operand_failure self kind o = Some e
          /\ forall (j : nat) (kind' : operand_kind) (o' : text),
               (j < i)%nat -> kinds !! j = Some kind' ->
               operands !! j = Some o' ->
               operand_failure self kind' o' = None)
    /\ forall (machine_code : list Z) (n : Z) (raw : text) (rest : list text),
         second_pass_scan raw = Some line ->
         second_pass_loop self machine_code n (raw :: rest)
         = (self, Aborted {| diag_line_num := n; diag_line := line;
                             diag_error := e |}).
Proof.
  intros Hparts Harity Hlen.
  rewrite arity_operand_kinds in Harity.
  destruct (operand_kinds (upper m)) as [kinds |] eqn:Hkinds;
    [| discriminate Harity].
  injection Harity as Hk. subst k.
  pose proof (short_operands_failure self line line_num m operands kinds
                Hparts Hkinds Hlen) as Hrun.
  exists kinds, (short_failure self kinds operands).
  split; [reflexivity |]. split; [reflexivity |]. split; [exact Hrun |].
  split; [reflexivity |]. split; [| split].
  - intros Hall. apply short_failure_index; assumption.
  - intros Hne. apply short_failure_operand; [reflexivity | exact Hne].
  - intros machine_code n raw rest Hscan. cbn [second_pass_loop].
    rewrite Hscan.
    change (assemble_instruction self line n)
      with (assemble_instruction self line line_num).
    rewrite Hrun. reflexivity.
Qed.

Lemma missing_operand_is_index_error_witness :
  assemble_instruction new_Assembler (str "BEQ X1, X2") 7 = Raise IndexError.
Proof.
  destruct (missing_operand_is_index_error new_Assembler (str "BEQ X1, X2") 7
              (str "BEQ") [str "X1"; str "X2"] 3)
    as (kinds & e & Hkinds & _ & Hrun & _ & Hindex & _).
  - vm_compute. reflexivity.
  - vm_compute. reflexivity.
  - cbn. lia.
  - rewrite Hrun. f_equal. apply Hindex.
    assert (Hk : kinds = [RegisterOperand; RegisterOperand;
                          ImmediateOperand true])
      by (vm_compute in Hkinds; congruence).
    subst kinds. cbn [length take].
    repeat constructor; vm_compute; reflexivity.
Defined.

(** ** The memory operand *)

Lemma star_sound {R : Type} (p : ascii -> bool) (s : text)
    (k : text -> option R) (res : R) :
  star p s k = Some res ->
  exists pre t,
    s = pre ++ t /\ Forall (fun c => p c = true) pre /\ k t = Some res.
Proof.
  induction s as [| c s IH]; cbn [star]; intros H.
  - exists [], []. auto.
  - destruct (p c) eqn:Hc.
    + destruct (star p s k) as [r |] eqn:Hs.
      * injection H as ->.
        destruct (IH eq_refl) as (pre & t & -> & Hpre & Hk).
        exists (c :: pre), t. repeat split; [constructor; assumption | exact Hk].
      * exists [], (c :: s). auto.
    + exists [], (c :: s). auto.
Qed.

Lemma rmatch_sound (r : regex) :
  forall (s : text) (g : gmap nat text)
         (k : text -> gmap nat text -> option (gmap nat text))
         (res : gmap nat text),
    rmatch r s g k = Some res ->
    exists pre t g', s = pre ++ t /\ lang r pre /\ k t g' = Some res.
Proof.
  induction r as [c | p | r IH | r1 IH1 r2 IH2 | i r IH];
    intros s g k res H; cbn [rmatch lang] in *.
  - destruct s as [| c' s]; [discriminate |].
    destruct (Ascii.eqb c' c) eqn:Hc; [| discriminate].
    apply Ascii.eqb_eq in Hc as ->. exists [c], s, g. auto.
  - destruct s as [| c s]; [discriminate |].
    destruct (p c) eqn:Hc; [| discriminate].
    apply star_sound in H as (pre & t & -> & Hpre & Hk).
    exists (c :: pre), t, g. repeat split; [discriminate | | exact Hk].
    constructor; assumption.
  - destruct (rmatch r s g k) as [g1 |] eqn:Hr.
    + injection H as ->.
      destruct (IH _ _ _ _ Hr) as (pre & t & g' & -> & Hl & Hk).
      exists pre, t, g'. auto.
    + exists [], s, g. auto.
  - destruct (IH1 _ _ _ _ H) as (pre1 & t1 & g1 & -> & Hl1 & H2).
    destruct (IH2 _ _ _ _ H2) as (pre2 & t2 & g2 & -> & Hl2 & Hk).
    exists (pre1 ++ pre2), t2, g2. rewrite <- app_assoc.
    repeat split; [| exact Hk]. exists pre1, pre2. auto.
  - destruct (IH _ _ _ _ H) as (pre & t & g' & -> & Hl & Hk).
    eexists pre, t, _. repeat split; [exact Hl | exact Hk].
Qed.

Lemma memory_operand_re_lang (s : text) :
  lang memory_operand_re s ->
  exists neg digits reg, well_formed neg digits reg /\ s = memory_token neg digits reg.
Proof.
  unfold memory_operand_re. cbn [lang].
  intros (s1 & s2 & -> & Hoff & (s3 & s4 & -> & -> & (w & s5 & -> & [Hne Hw] & ->))).
  destruct Hoff as [-> | (sg & ds & -> & Hsg & Hne' & Hds)].
  - exists false, [], w. split; [| reflexivity].
    repeat split; [constructor | discriminate | exact Hne | exact Hw].
  - destruct Hsg as [-> | ->].
    + exists false, ds, w. split; [| reflexivity].
      repeat split; [exact Hds | discriminate | exact Hne | exact Hw].
    + exists true, ds, w.
      split; [| unfold memory_token; rewrite <- app_assoc; reflexivity].
      repeat split; [exact Hds | intros _; exact Hne' | exact Hne | exact Hw].
Qed.

(** Without a prefix of the syntax there is no match. *)
Lemma re_match_None (s : text) :
  (forall neg digits reg rest,
      well_formed neg digits reg -> s <> memory_token neg digits reg ++ rest) ->
  re_match memory_operand_re s = None.
Proof.
  intros Hno. destruct (re_match memory_operand_re s) as [g |] eqn:Hm;
    [| reflexivity].
  exfalso. unfold re_match in Hm.
  apply rmatch_sound in Hm as (pre & t & _ & -> & Hl & _).
  apply memory_operand_re_lang in Hl as (neg & ds & w & Hwf & ->).
  exact (Hno neg ds w t Hwf eq_refl).
Qed.

(** Facts about digits and word characters, by enumeration. *)
Lemma digit_facts (d : ascii) :
  isdigit d = true ->
  isspace d = false
  /\ Ascii.eqb d "_" = false
  /\ Ascii.eqb d "-" = false
  /\ Ascii.eqb d "(" = false
  /\ (digit_value d <? 10) = true
  /\ digit_value d = ord d - 48
  /\ (forall (A : Type) (x y z : A),
        match d with "+"%char => x | "-"%char => y | _ => z end = z)
  /\ (forall (A : Type) (x y : A),
        match d with "_"%char => x | _ => y end = y).
Proof.
  destruct d as [[] [] [] [] [] [] [] []]; intros H;
    try discriminate H; repeat split; reflexivity.
Qed.

Lemma word_facts (c : ascii) :
  isword c = true -> Ascii.eqb c ")" = false.
Proof.
  destruct c as [[] [] [] [] [] [] [] []]; intros H;
    try discriminate H; reflexivity.
Qed.

Lemma skip_prefix_10 (s : text) : skip_prefix 10 s = s.
Proof.
  destruct s as [| c [| c' s]]; try reflexivity;
    destruct c as [[] [] [] [] [] [] [] []]; reflexivity.
Qed.

Lemma scan_digits_decimal (ds : text) (acc : Z) (n : nat) :
  Forall (fun c => isdigit c = true) ds ->
  scan_digits 10 false acc n ds
  = Some (fold_left (fun a c => a * 10 + (ord c - 48)) ds acc,
          (n + length ds)%nat, []).
Proof.
  intros Hds. revert acc n.
  induction Hds as [| d ds Hd _ IH]; intros acc n; cbn [scan_digits].
  - cbn. rewrite Nat.add_0_r. reflexivity.
  - destruct (digit_facts d Hd) as (_ & -> & _ & _ & -> & Hv & _).
    rewrite IH, Hv. cbn [fold_left length]. do 3 f_equal. lia.
Qed.

(** [int()] of an optional minus sign and digits: the number they write,
    unless there are more digits than the limit. *)
Lemma int_decimal (neg : bool) (ds : text) :
  ds <> [] -> Forall (fun c => isdigit c = true) ds ->
  int_ ((if neg then str "-" else []) ++ ds)
  = if 4300 <? Z.of_nat (length ds)
    then Raise (InvalidLiteral ((if neg then str "-" else []) ++ ds))
    else Ok (offset_value neg ds).
Proof.
  intros Hne Hds. unfold int_, py_int, offset_value, decimal.
  destruct ds as [| d ds]; [contradiction |].
  pose proof (Forall_inv Hds) as Hd.
  destruct (digit_facts d Hd) as (Hsp & _ & _ & _ & _ & _ & Hsign & Hus).
  change (limited 10) with true. unfold max_str_digits. cbn [andb].
  destruct neg; cbn [app str list_ascii_of_string lstrip].
  - change (isspace "-") with false. cbn iota.
    rewrite skip_prefix_10, Hus, scan_digits_decimal by exact Hds.
    cbn [Nat.add length lstrip].
    destruct (4300 <? Z.of_nat (S (length ds))); [reflexivity |].
    f_equal; lia.
  - rewrite Hsp, Hsign, skip_prefix_10, Hus, scan_digits_decimal by exact Hds.
    cbn [Nat.add length lstrip].
    destruct (4300 <? Z.of_nat (S (length ds))); [reflexivity |].
    f_equal; lia.
Qed.

Lemma star_greedy {R : Type} (p : ascii -> bool) (ds s : text)
    (k : text -> option R) (res : R) :
  Forall (fun c => p c = true) ds ->
  (forall c t, s = c :: t -> p c = false) ->
  k s = Some res ->
  star p (ds ++ s) k = Some res.
Proof.
  intros Hds Hs Hk. induction Hds as [| d ds Hd _ IH]; cbn [app star].
  - destruct s as [| c t]; cbn [star]; [exact Hk |].
    rewrite (Hs c t eq_refl). exact Hk.
  - rewrite Hd, IH. reflexivity.
Qed.

Lemma rmatch_Plus (p : ascii -> bool) (ds s : text) (g : gmap nat text)
    (k : text -> gmap nat text -> option (gmap nat text)) (res : gmap nat text) :
  ds <> [] -> Forall (fun c => p c = true) ds ->
  (forall c t, s = c :: t -> p c = false) ->
  k s g = Some res ->
  rmatch (Plus p) (ds ++ s) g k = Some res.
Proof.
  intros Hne Hds Hs Hk. destruct Hds as [| d ds Hd Hds]; [contradiction |].
  cbn [app rmatch]. rewrite Hd. apply star_greedy; assumption.
Qed.

Lemma take_prefix (pre t : text) :
  take (length (pre ++ t) - length t) (pre ++ t) = pre.
Proof.
  rewrite length_app. replace (length pre + length t - length t)%nat
    with (length pre) by lia.
  apply take_app_length.
Qed.

Lemma rmatch_Lit_same (c : ascii) (s : text) (g : gmap nat text)
    (k : text -> gmap nat text -> option (gmap nat text)) :
  rmatch (Lit c) (c :: s) g k = k s g.
Proof. cbn [rmatch]. rewrite Ascii.eqb_refl. reflexivity. Qed.

Lemma rmatch_Lit_other (c c' : ascii) (s : text) (g : gmap nat text)
    (k : text -> gmap nat text -> option (gmap nat text)) :
  Ascii.eqb c' c = false -> rmatch (Lit c) (c' :: s) g k = None.
Proof. intros H. cbn [rmatch]. rewrite H. reflexivity. Qed.

Lemma rmatch_Plus_other (p : ascii -> bool) (c : ascii) (s : text)
    (g : gmap nat text)
    (k : text -> gmap nat text -> option (gmap nat text)) :
  p c = false -> rmatch (Plus p) (c :: s) g k = None.
Proof. intros H. cbn [rmatch]. rewrite H. reflexivity. Qed.

Lemma rmatch_Seq (r1 r2 : regex) (s : text) (g : gmap nat text)
    (k : text -> gmap nat text -> option (gmap nat text)) :
  rmatch (Seq r1 r2) s g k = rmatch r1 s g (fun t g' => rmatch r2 t g' k).
Proof. reflexivity. Qed.

Lemma rmatch_Group (i : nat) (r : regex) (s : text) (g : gmap nat text)
    (k : text -> gmap nat text -> option (gmap nat text)) :
  rmatch (Group i r) s g k
  = rmatch r s g (fun t g' => k t (<[i := take (length s - length t) s]> g')).
Proof. reflexivity. Qed.

Lemma rmatch_Opt (r : regex) (s : text) (g : gmap nat text)
    (k : text -> gmap nat text -> option (gmap nat text)) :
  rmatch (Opt r) s g k
  = match rmatch r s g k with
    | Some g' => Some g'
    | None => k s g
    end.
Proof. reflexivity. Qed.

(** The match of the register part, [\((\w+)\)]. *)
Lemma rmatch_register_part (w rest : text) (g : gmap nat text)
    (k : text -> gmap nat text -> option (gmap nat text)) (res : gmap nat text) :
  w <> [] -> Forall (fun c => isword c = true) w ->
  k rest (<[2%nat := w]> g) = Some res ->
  rmatch (Seq (Lit "(") (Seq (Group 2 (Plus isword)) (Lit ")")))
    ("("%char :: w ++ ")"%char :: rest) g k = Some res.
Proof.
  intros Hne Hw Hk.
  rewrite rmatch_Seq, rmatch_Lit_same, rmatch_Seq, rmatch_Group.
  apply rmatch_Plus; [exact Hne | exact Hw | |].
  - intros c t Heq. injection Heq as <- _. reflexivity.
  - rewrite rmatch_Lit_same, take_prefix. exact Hk.
Qed.

(** The match of the offset part, [-?\d+], as group 1. *)
Lemma rmatch_offset_part (neg : bool) (d : ascii) (ds s : text)
    (g : gmap nat text)
    (k : text -> gmap nat text -> option (gmap nat text)) (res : gmap nat text) :
  Forall (fun c => isdigit c = true) (d :: ds) ->
  (forall c t, s = c :: t -> isdigit c = false) ->
  k s (<[1%nat := (if neg then str "-" else []) ++ d :: ds]> g) = Some res ->
  rmatch (Group 1 (Seq (Opt (Lit "-")) (Plus isdigit)))
    ((if neg then str "-" else []) ++ (d :: ds) ++ s) g k = Some res.
Proof.
  intros Hds Hs Hk.
  pose proof (Forall_inv Hds) as Hd.
  destruct (digit_facts d Hd) as (_ & _ & Hminus & _).
  rewrite rmatch_Group, rmatch_Seq, rmatch_Opt.
  destruct neg; cbn [str list_ascii_of_string app] in *.
  - rewrite rmatch_Lit_same.
    change (d :: ds ++ s) with ((d :: ds) ++ s).
    rewrite (rmatch_Plus isdigit (d :: ds) s g _ res);
      [reflexivity | discriminate | exact Hds | exact Hs |].
    change ("-"%char :: (d :: ds) ++ s) with (("-"%char :: d :: ds) ++ s).
    rewrite take_prefix. exact Hk.
  - rewrite (rmatch_Lit_other _ _ _ _ _ Hminus).
    change (d :: ds ++ s) with ((d :: ds) ++ s).
    rewrite (rmatch_Plus isdigit (d :: ds) s g _ res);
      [reflexivity | discriminate | exact Hds | exact Hs |].
    rewrite take_prefix. exact Hk.
Qed.

Lemma re_match_memory_token (neg : bool) (ds w rest : text) :
  well_formed neg ds w ->
  re_match memory_operand_re (memory_token neg ds w ++ rest)
  = Some (<[2%nat := w]>
            (match ds with
             | [] => ∅
             | _ :: _ => {[ 1%nat := (if neg then str "-" else []) ++ ds ]}
             end)).
Proof.
  intros (Hds & Hneg & Hne & Hw).
  unfold re_match, memory_operand_re, memory_token.
  rewrite <- !app_assoc. cbn [str list_ascii_of_string app].
  rewrite rmatch_Seq, rmatch_Opt.
  destruct ds as [| d ds].
  - destruct neg; [exfalso; apply Hneg; reflexivity |].
    cbn [app].
    rewrite rmatch_Group, rmatch_Seq, rmatch_Opt.
    rewrite (rmatch_Lit_other "-" "(") by reflexivity.
    rewrite rmatch_Plus_other by reflexivity. cbv beta iota.
    apply (rmatch_register_part w rest ∅); [exact Hne | exact Hw | reflexivity].
  - rewrite (rmatch_offset_part neg d ds _ ∅ _
               (<[2%nat := w]> {[ 1%nat := (if neg then str "-" else []) ++ d :: ds ]}));
      [reflexivity | exact Hds | |].
    + intros c t Heq. injection Heq as <- _. reflexivity.
    + apply rmatch_register_part; [exact Hne | exact Hw | reflexivity].
Qed.

(** Claim C9 fails as stated: a token whose register is not a known alias
    is not of the syntax, and it does not fail as an invalid memory operand
    but with the error of the register parser. *)
Lemma unknown_register_in_memory_operand :
  REGISTERS !! str "Y9" = None
  /\ parse_memory_operand (str "8(Y9)") = Raise (UnknownRegister (str "Y9"))
  /\ parse_memory_operand (str "8(Y9)")
     <> Raise (InvalidMemoryOperand (str "8(Y9)")).
Proof. vm_compute. repeat split; try reflexivity. discriminate. Qed.

(** What [parse_memory_operand] does with a token that begins with the
    syntax: what follows the closing parenthesis plays no role. *)
Lemma parse_memory_operand_prefix (tok : text) (neg : bool) (ds w rest : text) :
  strip tok = memory_token neg ds w ++ rest ->
  well_formed neg ds w ->
  parse_memory_operand tok
  = if 4300 <? Z.of_nat (length ds)
    then Raise (InvalidLiteral ((if neg then str "-" else []) ++ ds))
    else (r ← parse_register w; Ok (offset_value neg ds, r)).
Proof.
  intros Htok Hwf. unfold parse_memory_operand.
  rewrite Htok, (re_match_memory_token neg ds w rest Hwf).
  rewrite lookup_insert_eq. cbn [default].
  rewrite lookup_insert_ne by discriminate.
  destruct Hwf as (Hds & Hneg & _ & _).
  destruct ds as [| d ds].
  - destruct neg; [exfalso; apply Hneg; reflexivity |].
    rewrite lookup_empty. reflexivity.
  - rewrite lookup_singleton_eq.
    assert (Hint : int_ ((if neg then str "-" else []) ++ d :: ds)
                   = if 4300 <? Z.of_nat (length (d :: ds))
                     then Raise (InvalidLiteral
                                   ((if neg then str "-" else []) ++ d :: ds))
                     else Ok (offset_value neg (d :: ds)))
      by (apply int_decimal; [discriminate | exact Hds]).
    destruct neg; cbn [str list_ascii_of_string app] in *;
      rewrite Hint; destruct (4300 <? Z.of_nat (length (d :: ds)));
      reflexivity.
Qed.

(** Claim C9, amended: for a token that (trimmed) is an optional minus sign
    and digits, which may be left out together, followed by a register name
    in parentheses, [parse_memory_operand] returns the offset (0 without
    digits) and the register id when the name is a known alias, and fails
    with the unknown-register error of the register parser when it is not,
    provided that there are no more than 4300 digits; with more digits it
    fails with the error of [int()], before it looks at the register.  A
    token that does not begin with this syntax fails as an invalid memory
    operand. *)
Theorem parse_memory_operand_syntax (tok : text) :
  (forall neg digits reg r,
      strip tok = memory_token neg digits reg ->
      well_formed neg digits reg ->
      Z.of_nat (length digits) <= 4300 ->
      REGISTERS !! strip (upper reg) = Some r ->
      parse_memory_operand tok = Ok (offset_value neg digits, r))
  /\ (forall neg digits reg,
         strip tok = memory_token neg digits reg ->
         well_formed neg digits reg ->
         Z.of_nat (length digits) <= 4300 ->
         REGISTERS !! strip (upper reg) = None ->
         parse_memory_operand tok
         = Raise (UnknownRegister (strip (upper reg))))
  /\ (forall neg digits reg,
         strip tok = memory_token neg digits reg ->
         well_formed neg digits reg ->
         4300 < Z.of_nat (length digits) ->
         parse_memory_operand tok
         = Raise (InvalidLiteral ((if neg then str "-" else []) ++ digits)))
  /\ ((forall neg digits reg rest,
          well_formed neg digits reg ->
          strip tok <> memory_token neg digits reg ++ rest) ->
      parse_memory_operand tok = Raise (InvalidMemoryOperand tok)).
Proof.
  assert (Hgen : forall neg digits reg,
             strip tok = memory_token neg digits reg ->
             well_formed neg digits reg ->
             parse_memory_operand tok
             = if 4300 <? Z.of_nat (length digits)
               then Raise (InvalidLiteral
                             ((if neg then str "-" else []) ++ digits))
               else (r ← parse_register reg; Ok (offset_value neg digits, r))).
  { intros neg ds w Htok Hwf.
    apply (parse_memory_operand_prefix tok neg ds w []); [| exact Hwf].
    rewrite app_nil_r. exact Htok. }
  split; [| split; [| split]].
  - intros neg ds w r Htok Hwf Hlen Hreg.
    rewrite (Hgen neg ds w Htok Hwf).
    replace (4300 <? Z.of_nat (length ds)) with false
      by (symmetry; apply Z.ltb_ge; exact Hlen).
    unfold parse_register. rewrite Hreg. reflexivity.
  - intros neg ds w Htok Hwf Hlen Hreg.
    rewrite (Hgen neg ds w Htok Hwf).
    replace (4300 <? Z.of_nat (length ds)) with false
      by (symmetry; apply Z.ltb_ge; exact Hlen).
    unfold parse_register. rewrite Hreg. reflexivity.
  - intros neg ds w Htok Hwf Hlen.
    rewrite (Hgen neg ds w Htok Hwf).
    replace (4300 <? Z.of_nat (length ds)) with true
      by (symmetry; apply Z.ltb_lt; exact Hlen).
    reflexivity.
  - intros Hno. unfold parse_memory_operand.
    rewrite (re_match_None _ Hno). reflexivity.
Qed.

Lemma parse_memory_operand_syntax_witness :
  parse_memory_operand (str " -12(tid) ") = Ok (-12, 1)
  /\ parse_memory_operand (str "(X9)") = Ok (0, 9).
Proof.
  split.
  - apply (proj1 (parse_memory_operand_syntax (str " -12(tid) "))
             true (str "12") (str "tid") 1).
    + vm_compute. reflexivity.
    + repeat split; try discriminate; repeat constructor.
    + cbn. lia.
    + vm_compute. reflexivity.
  - apply (proj1 (parse_memory_operand_syntax (str "(X9)"))
             false [] (str "X9") 9).
    + vm_compute. reflexivity.
    + repeat split; try discriminate; repeat constructor.
    + cbn. lia.
    + vm_compute. reflexivity.
Defined.

(** * Further properties *)

(** ** The hexadecimal formatter *)

Lemma ishex_facts (c : ascii) :
  ishex c = true ->
  isspace c = false
  /\ Ascii.eqb c "_" = false
  /\ Ascii.eqb c "010" = false
  /\ (digit_value c <? 16) = true
  /\ 0 <= digit_value c
  /\ (forall (A : Type) (x y z : A),
        match c with "+"%char => x | "-"%char => y | _ => z end = z)
  /\ (forall (A : Type) (x y : A),
        match c with "_"%char => x | _ => y end = y)
  /\ Ascii.eqb c "x" || Ascii.eqb c "X" = false.
Proof.
  destruct c as [[] [] [] [] [] [] [] []]; intros H;
    try discriminate H; repeat split; try reflexivity; vm_compute; discriminate.
Qed.

Lemma hex_chars_of_uint (d : Hexadecimal.uint) :
  Forall (fun c => ishex c = true)
    (str (HexadecimalString.NilEmpty.string_of_uint d)).
Proof.
  induction d; cbn [HexadecimalString.NilEmpty.string_of_uint str
                    list_ascii_of_string];
    constructor; first [reflexivity | exact IHd].
Qed.

Lemma hex_value_of_uint_acc (d : Hexadecimal.uint) (p : positive) :
  fold_left (fun acc c => acc * 16 + digit_value c)
    (str (HexadecimalString.NilEmpty.string_of_uint d)) (Z.pos p)
  = Z.pos (Pos.of_hex_uint_acc d p).
Proof.
  revert p.
  induction d; intros p;
    cbn [HexadecimalString.NilEmpty.string_of_uint str list_ascii_of_string
         fold_left Pos.of_hex_uint_acc];
    [reflexivity | rewrite <- IHd; f_equal;
                   vm_compute digit_value; lia ..].
Qed.

Lemma hex_value_of_uint (d : Hexadecimal.uint) :
  hex_value (str (HexadecimalString.NilEmpty.string_of_uint d))
  = Z.of_N (Pos.of_hex_uint d).
Proof.
  unfold hex_value.
  induction d;
    cbn [HexadecimalString.NilEmpty.string_of_uint str list_ascii_of_string
         fold_left Pos.of_hex_uint];
    [reflexivity | exact IHd
    | match goal with
      | |- fold_left _ _ ?a = _ =>
          let v := eval vm_compute in a in change a with v
      end;
      rewrite hex_value_of_uint_acc; reflexivity ..].
Qed.

Lemma hex_digits_eq (n : Z) :
  hex_digits n
  = str (HexadecimalString.NilEmpty.string_of_uint (N.to_hex_uint (Z.to_N n))).
Proof.
  unfold hex_digits, HexadecimalString.NilZero.string_of_uint.
  destruct (N.to_hex_uint (Z.to_N n)) eqn:Hd; try reflexivity.
  destruct (Z.to_N n) as [| p]; [discriminate Hd |].
  exfalso. exact (HexadecimalPos.Unsigned.to_uint_nonnil p Hd).
Qed.

Lemma hex_digits_ishex (n : Z) : Forall (fun c => ishex c = true) (hex_digits n).
Proof. rewrite hex_digits_eq. apply hex_chars_of_uint. Qed.

(** The digits write the number. *)
Lemma hex_value_hex_digits (n : Z) : 0 <= n -> hex_value (hex_digits n) = n.
Proof.
  intros Hn. rewrite hex_digits_eq, hex_value_of_uint.
  change (Pos.of_hex_uint (N.to_hex_uint (Z.to_N n)))
    with (N.of_hex_uint (N.to_hex_uint (Z.to_N n))).
  rewrite HexadecimalN.Unsigned.of_to. apply Z2N.id. exact Hn.
Qed.

Lemma hex_fold_bounds (cs : text) (acc : Z) :
  Forall (fun c => ishex c = true) cs -> 0 <= acc ->
  acc * 16 ^ Z.of_nat (length cs)
  <= fold_left (fun a c => a * 16 + digit_value c) cs acc
  < (acc + 1) * 16 ^ Z.of_nat (length cs).
Proof.
  intros Hcs. revert acc.
  induction Hcs as [| c cs Hc _ IH]; intros acc Hacc; cbn [fold_left length].
  - cbn. lia.
  - destruct (ishex_facts c Hc) as (_ & _ & _ & Hlt & Hge & _).
    apply Z.ltb_lt in Hlt.
    specialize (IH (acc * 16 + digit_value c) ltac:(lia)).
    rewrite Nat2Z.inj_succ, Z.pow_succ_r by lia.
    assert (0 < 16 ^ Z.of_nat (length cs)) by (apply Z.pow_pos_nonneg; lia).
    nia.
Qed.

(** The first digit of a positive number is not zero. *)
Lemma hex_digits_leading (n : Z) :
  0 < n ->
  exists c cs, hex_digits n = c :: cs /\ 1 <= digit_value c.
Proof.
  intros Hn. rewrite hex_digits_eq.
  destruct (Z.to_N n) as [| p] eqn:Hp; [lia |].
  cbn [N.to_hex_uint].
  assert (Hnorm : Hexadecimal.unorm (Pos.to_hex_uint p) = Pos.to_hex_uint p).
  { rewrite <- HexadecimalPos.Unsigned.to_of.
    rewrite HexadecimalPos.Unsigned.of_to. reflexivity. }
  pose proof (HexadecimalPos.Unsigned.to_uint_nonzero p) as Hnz.
  pose proof (HexadecimalPos.Unsigned.to_uint_nonnil p) as Hnn.
  revert Hnorm Hnz Hnn. generalize (Pos.to_hex_uint p). intros d Hnorm Hnz Hnn.
  destruct d;
    try (eexists _, _; split; [reflexivity | vm_compute; discriminate]).
  - contradiction.
  - exfalso. unfold Hexadecimal.unorm in Hnorm. cbn [Hexadecimal.nzhead] in Hnorm.
    pose proof (HexadecimalFacts.nb_digits_nzhead d) as Hle.
    destruct (Hexadecimal.nzhead d) eqn:Hh;
      [congruence | ..];
      rewrite Hnorm in Hle; cbn [Hexadecimal.nb_digits] in Hle; lia.
Qed.

Lemma hex_digits_nonempty (n : Z) : hex_digits n <> [].
Proof.
  rewrite hex_digits_eq.
  destruct (Z.to_N n) as [| p]; [discriminate |].
  cbn [N.to_hex_uint].
  pose proof (HexadecimalPos.Unsigned.to_uint_nonnil p) as Hnn.
  destruct (Pos.to_hex_uint p); [contradiction | discriminate ..].
Qed.

(** The number of digits: at most [k] exactly for the numbers below
    [16 ^ k]. *)
Lemma hex_digits_length (n : Z) (k : nat) :
  0 <= n -> (1 <= k)%nat ->
  (length (hex_digits n) <= k)%nat <-> n < 16 ^ Z.of_nat k.
Proof.
  intros Hn Hk.
  pose proof (hex_fold_bounds (hex_digits n) 0 (hex_digits_ishex n) ltac:(lia))
    as Hb.
  fold (hex_value (hex_digits n)) in Hb. rewrite hex_value_hex_digits in Hb by lia.
  split.
  - intros Hlen.
    assert (16 ^ Z.of_nat (length (hex_digits n)) <= 16 ^ Z.of_nat k)
      by (apply Z.pow_le_mono_r; lia).
    lia.
  - intros Hlt. destruct (Z.eq_dec n 0) as [-> | Hne].
    + change (length (hex_digits 0)) with 1%nat. exact Hk.
    + destruct (hex_digits_leading n ltac:(lia)) as (c & cs & Heq & Hc).
      pose proof (hex_digits_ishex n) as Hhex. rewrite Heq in Hhex.
      inversion Hhex as [| ? ? Hc' Hcs]; subst.
      pose proof (hex_fold_bounds cs (digit_value c) Hcs ltac:(lia)) as Hb'.
      pose proof (hex_value_hex_digits n ltac:(lia)) as Hv.
      unfold hex_value in Hv. rewrite Heq in Hv. cbn [fold_left] in Hv.
      change (0 * 16 + digit_value c) with (digit_value c) in Hv.
      rewrite Hv in Hb'. rewrite Heq. cbn [length].
      destruct (Nat.le_gt_cases (S (length cs)) k) as [Hok | Hbad]; [exact Hok |].
      exfalso.
      assert (16 ^ Z.of_nat k <= 16 ^ Z.of_nat (length cs))
        by (apply Z.pow_le_mono_r; lia).
      nia.
Qed.

Lemma scan_digits_hex (cs : text) (acc : Z) (n : nat) :
  Forall (fun c => ishex c = true) cs ->
  scan_digits 16 false acc n cs
  = Some (fold_left (fun a c => a * 16 + digit_value c) cs acc,
          (n + length cs)%nat, []).
Proof.
  intros Hcs. revert acc n.
  induction Hcs as [| c cs Hc _ IH]; intros acc n; cbn [scan_digits].
  - cbn. rewrite Nat.add_0_r. reflexivity.
  - destruct (ishex_facts c Hc) as (_ & -> & _ & -> & _).
    rewrite IH. cbn [fold_left length]. do 3 f_equal. lia.
Qed.

Lemma skip_prefix_16_hex (cs : text) :
  Forall (fun c => ishex c = true) cs -> skip_prefix 16 cs = cs.
Proof.
  intros Hcs. unfold skip_prefix.
  destruct cs as [| c0 [| c1 cs]].
  - reflexivity.
  - destruct c0 as [[] [] [] [] [] [] [] []]; reflexivity.
  - pose proof (Forall_inv (Forall_inv_tail Hcs)) as Hc1.
    destruct (ishex_facts c1 Hc1) as (_ & _ & _ & _ & _ & _ & _ & Hx).
    destruct c0 as [[] [] [] [] [] [] [] []]; try reflexivity.
    cbn [Z.eqb Pos.eqb andb orb]. rewrite Hx. reflexivity.
Qed.

(** What [py_int] does after the sign, on hexadecimal digits. *)
Lemma py_int_hex_body (sgn : Z) (body : text) :
  Forall (fun c => ishex c = true) body -> body <> [] ->
  match skip_prefix 16 body with
  | "_"%char :: _ => None
  | _ =>
      match scan_digits 16 false 0 0 (skip_prefix 16 body) with
      | Some (z, S n, rest) =>
          if limited 16 && (max_str_digits <? Z.of_nat (S n)) then None
          else
            match lstrip rest with
            | [] => Some (sgn * z)
            | _ :: _ => None
            end
      | _ => None
      end
  end = Some (sgn * hex_value body).
Proof.
  intros Hbody Hne. rewrite skip_prefix_16_hex by exact Hbody.
  rewrite scan_digits_hex by exact Hbody.
  destruct body as [| c cs]; [contradiction |].
  destruct (ishex_facts c (Forall_inv Hbody)) as (_ & _ & _ & _ & _ & _ & Hus & _).
  rewrite Hus. cbn [Nat.add length lstrip].
  change (limited 16) with false. reflexivity.
Qed.

Lemma hex_value_zeros (k : nat) (digits : text) :
  hex_value (repeat "0"%char k ++ digits) = hex_value digits.
Proof.
  unfold hex_value. rewrite fold_left_app. f_equal.
  induction k as [| k IH]; [reflexivity |]. cbn [repeat fold_left]. exact IH.
Qed.

Lemma zeros_ishex (k : nat) : Forall (fun c => ishex c = true) (repeat "0"%char k).
Proof. induction k; constructor; [reflexivity | assumption]. Qed.

(** The formatter and [int(_, 16)] are inverse to each other on every
    integer, whatever the width. *)
Lemma py_int_padded_hex (w : Z) (width : nat) :
  py_int ((if w <? 0 then str "-" else [])
          ++ repeat "0"%char
               (width - length (if w <? 0 then str "-" else [])
                - length (hex_digits (Z.abs w)))
          ++ hex_digits (Z.abs w)) 16
  = Some w.
Proof.
  set (k := (width - _ - _)%nat). clearbody k.
  set (body := repeat "0"%char k ++ hex_digits (Z.abs w)).
  assert (Hbody : Forall (fun c => ishex c = true) body).
  { apply Forall_app. split; [apply zeros_ishex | apply hex_digits_ishex]. }
  assert (Hne : body <> []).
  { unfold body. intros H. apply app_eq_nil in H as [_ H].
    exact (hex_digits_nonempty _ H). }
  assert (Hval : hex_value body = Z.abs w).
  { unfold body. rewrite hex_value_zeros. apply hex_value_hex_digits. lia. }
  unfold py_int. destruct (w <? 0) eqn:Hsign.
  - cbn [str list_ascii_of_string app lstrip].
    change (isspace "-") with false. cbn iota.
    rewrite (py_int_hex_body (-1) body Hbody Hne), Hval.
    apply Z.ltb_lt in Hsign. f_equal. lia.
  - cbn [app]. destruct body as [| c cs] eqn:Hb; [contradiction |].
    destruct (ishex_facts c (Forall_inv Hbody)) as (Hsp & _ & _ & _ & _ & Hsg & _).
    cbn [lstrip]. rewrite Hsp, Hsg.
    rewrite (py_int_hex_body 1 (c :: cs) Hbody Hne), Hval.
    apply Z.ltb_ge in Hsign. f_equal. lia.
Qed.

(** Reading a formatted word back with [int(_, 16)] gives the word, for
    every integer: negative numbers keep their sign and numbers of more than
    eight digits are written in full. *)
Theorem format_08x_round_trip (w : Z) : py_int (format_08x w) 16 = Some w.
Proof. unfold format_08x. apply (py_int_padded_hex w 8). Qed.

(** A word that is not negative is written with lowercase hexadecimal digits
    only, and with exactly eight of them if and only if it is below 2^32;
    a larger word takes more than eight. *)
Theorem format_08x_width (w : Z) :
  0 <= w ->
  Forall (fun c => ishex c = true) (format_08x w)
  /\ (8 <= length (format_08x w))%nat
  /\ (length (format_08x w) = 8%nat <-> w < 2 ^ 32).
Proof.
  intros Hw. unfold format_08x.
  replace (w <? 0) with false by (symmetry; apply Z.ltb_ge; exact Hw).
  rewrite Z.abs_eq by exact Hw. cbn [app length Nat.sub].
  pose proof (hex_digits_length w 8 Hw ltac:(lia)) as Hlen.
  change (16 ^ Z.of_nat 8) with (2 ^ 32) in Hlen.
  split; [apply Forall_app; split; [apply zeros_ishex | apply hex_digits_ishex] |].
  rewrite length_app, repeat_length. split; [lia |].
  rewrite <- Hlen. lia.
Qed.

Lemma format_08x_width_witness :
  length (format_08x 0xC0220008) = 8%nat.
Proof.
  destruct (format_08x_width 0xC0220008) as (_ & _ & H); [lia |].
  apply H. reflexivity.
Defined.

(** ** Lines of the output texts *)

Lemma split_no_sep (sep : ascii) (p : text) :
  Forall (fun c => Ascii.eqb c sep = false) p -> split sep p = [p].
Proof.
  induction 1 as [| c p Hc _ IH]; cbn [split]; [reflexivity |].
  rewrite Hc, IH. reflexivity.
Qed.

Lemma split_app_sep (sep : ascii) (p rest : text) :
  Forall (fun c => Ascii.eqb c sep = false) p ->
  split sep (p ++ sep :: rest) = p :: split sep rest.
Proof.
  induction 1 as [| c p Hc _ IH]; cbn [split app].
  - rewrite Ascii.eqb_refl. reflexivity.
  - rewrite Hc, IH. reflexivity.
Qed.

(** [sep.join(parts).split(sep)] gives the parts back when no part holds the
    separator. *)
Lemma split_join (sep : ascii) (parts : list text) :
  parts <> [] ->
  Forall (Forall (fun c => Ascii.eqb c sep = false)) parts ->
  split sep (join sep parts) = parts.
Proof.
  intros Hne Hall. induction Hall as [| p parts Hp Hps IH]; [contradiction |].
  destruct parts as [| q parts].
  - cbn [join]. apply split_no_sep. exact Hp.
  - change (join sep (p :: q :: parts)) with (p ++ sep :: join sep (q :: parts)).
    rewrite split_app_sep by exact Hp. rewrite IH by discriminate. reflexivity.
Qed.

Lemma padded_hex_no_newline (w : Z) (width : nat) :
  Forall (fun c => Ascii.eqb c "010" = false)
    ((if w <? 0 then str "-" else [])
     ++ repeat "0"%char
          (width - length (if w <? 0 then str "-" else [])
           - length (hex_digits (Z.abs w)))
     ++ hex_digits (Z.abs w)).
Proof.
  assert (Hhex : forall cs, Forall (fun c => ishex c = true) cs ->
                            Forall (fun c => Ascii.eqb c "010" = false) cs).
  { intros cs Hcs. eapply Forall_impl; [exact Hcs |]. intros c Hc.
    destruct (ishex_facts c Hc) as (_ & _ & H & _). exact H. }
  repeat (apply Forall_app; split).
  - destruct (w <? 0); repeat constructor.
  - apply Hhex, zeros_ishex.
  - apply Hhex, hex_digits_ishex.
Qed.

(** The plain hex text has one line per word, in order: splitting it at the
    newlines gives the formatted words back (and the text of no word at all
    is empty). *)
Theorem to_hex_lines (machine_code : list Z) :
  machine_code <> [] ->
  split "010" (to_hex machine_code) = map format_08x machine_code
  /\ to_hex [] = [].
Proof.
  intros Hne. split; [| reflexivity]. unfold to_hex. apply split_join.
  - destruct machine_code; [contradiction | discriminate].
  - apply Forall_map. apply Forall_forall. intros w _.
    apply (padded_hex_no_newline w 8).
Qed.

Lemma to_hex_lines_witness :
  split "010" (to_hex [0x00221800; 0x04810001])
  = [str "00221800"; str "04810001"].
Proof.
  refine (eq_trans (proj1 (to_hex_lines [0x00221800; 0x04810001] _)) _).
  - discriminate.
  - reflexivity.
Defined.

Lemma memh_lines_imap (machine_code : list Z) (i : Z) :
  memh_lines i machine_code
  = imap (fun j code =>
            format_08x code ++ str "  // addr "
            ++ format_04x ((i + Z.of_nat j) * 4)) machine_code.
Proof.
  revert i. induction machine_code as [| code rest IH]; intros i;
    cbn [memh_lines imap]; [reflexivity |].
  f_equal.
  - replace ((i + Z.of_nat 0) * 4) with (i * 4) by lia. reflexivity.
  - rewrite IH. apply imap_ext. intros j w _. cbv beta. unfold compose.
    replace ((i + 1 + Z.of_nat j) * 4) with ((i + Z.of_nat (S j)) * 4) by lia.
    reflexivity.
Qed.

(** The annotated listing is the header line, an empty line, and then one
    line per word, in order: the word as [format_08x] writes it and, in a
    comment, its byte address, four times its index.  The address is written
    in lowercase hexadecimal digits, at least four of them and exactly four
    when it is below 2^16, and [int(_, 16)] reads it back. *)
Theorem to_memh_lines (machine_code : list Z) :
  split "010" (to_memh machine_code)
  = str "// OpenGPU machine code" :: []
    :: imap (fun j code =>
               format_08x code ++ str "  // addr "
               ++ format_04x (4 * Z.of_nat j)) machine_code
  /\ forall j : nat,
       py_int (format_04x (4 * Z.of_nat j)) 16 = Some (4 * Z.of_nat j)
       /\ Forall (fun c => ishex c = true) (format_04x (4 * Z.of_nat j))
       /\ (4 <= length (format_04x (4 * Z.of_nat j)))%nat
       /\ (length (format_04x (4 * Z.of_nat j)) = 4%nat
           <-> 4 * Z.of_nat j < 2 ^ 16).
Proof.
  split.
  - unfold to_memh. rewrite split_join.
    + cbn [app]. do 2 f_equal. rewrite memh_lines_imap.
      apply imap_ext. intros j w _. cbv beta.
      replace ((0 + Z.of_nat j) * 4) with (4 * Z.of_nat j) by lia.
      reflexivity.
    + discriminate.
    + cbn [app]. constructor; [repeat constructor |].
      constructor; [constructor |].
      rewrite memh_lines_imap. apply Forall_forall. intros l Hl.
      apply elem_of_lookup_imap_1 in Hl as (j & w & -> & _).
      apply Forall_app. split; [apply (padded_hex_no_newline w 8) |].
      apply Forall_app. split; [repeat constructor |].
      apply (padded_hex_no_newline _ 4).
  - intros j. split; [unfold format_04x; apply (py_int_padded_hex _ 4) |].
    unfold format_04x.
    assert (Hj : 0 <= 4 * Z.of_nat j) by lia.
    replace (4 * Z.of_nat j <? 0) with false
      by (symmetry; apply Z.ltb_ge; exact Hj).
    rewrite Z.abs_eq by exact Hj. cbn [app length Nat.sub].
    pose proof (hex_digits_length (4 * Z.of_nat j) 4 Hj ltac:(lia)) as Hlen.
    change (16 ^ Z.of_nat 4) with (2 ^ 16) in Hlen.
    split; [apply Forall_app; split;
            [apply zeros_ishex | apply hex_digits_ishex] |].
    rewrite length_app, repeat_length. split; [lia |].
    rewrite <- Hlen. lia.
Qed.

(** ** The memory operand, completed *)

(** Every token either begins with the syntax or does not match. *)
Lemma re_match_cases (s : text) :
  re_match memory_operand_re s = None
  \/ exists neg ds w rest,
       well_formed neg ds w /\ s = memory_token neg ds w ++ rest.
Proof.
  destruct (re_match memory_operand_re s) as [g |] eqn:Hm; [right | left; reflexivity].
  unfold re_match in Hm.
  apply rmatch_sound in Hm as (pre & t & _ & -> & Hl & _).
  apply memory_operand_re_lang in Hl as (neg & ds & w & Hwf & ->).
  exists neg, ds, w, t. split; [exact Hwf | reflexivity].
Qed.

(** [parse_memory_operand] accepts a token as soon as it begins with the
    syntax [[-digits](word)], with no more digits than [int()] accepts:
    whatever follows the closing parenthesis is ignored, so that [8(X2)junk]
    is read as [8(X2)]. *)
Theorem parse_memory_operand_ignores_tail
    (tok : text) (neg : bool) (digits reg rest : text) (r : Z) :
  strip tok = memory_token neg digits reg ++ rest ->
  well_formed neg digits reg ->
  Z.of_nat (length digits) <= 4300 ->
  REGISTERS !! strip (upper reg) = Some r ->
  parse_memory_operand tok = Ok (offset_value neg digits, r).
Proof.
  intros Htok Hwf Hlen Hreg.
  rewrite (parse_memory_operand_prefix tok neg digits reg rest Htok Hwf).
  replace (4300 <? Z.of_nat (length digits)) with false
    by (symmetry; apply Z.ltb_ge; exact Hlen).
  unfold parse_register. rewrite Hreg. reflexivity.
Qed.

Lemma parse_memory_operand_ignores_tail_witness :
  parse_memory_operand (str "8(X2)junk") = Ok (8, 2).
Proof.
  apply (parse_memory_operand_ignores_tail (str "8(X2)junk") false (str "8")
           (str "X2") (str "junk") 2).
  - vm_compute. reflexivity.
  - repeat split; try discriminate; repeat constructor.
  - cbn. lia.
  - vm_compute. reflexivity.
Defined.

(** ** The exceptions of a line *)










Lemma opcode_of_JAL : opcode_of (str "JAL") = Ok (Some 0x56).
Proof. vm_compute. reflexivity. Qed.




(** ** Unknown mnemonics and lines without tokens *)

(** A line whose first token, in upper case, is not a key of the opcode
    table raises "Unknown instruction" with that mnemonic, whatever its
    operands are: they are not looked at. *)
Theorem unknown_mnemonic
    (self : Assembler) (line : text) (line_num : Z) (m : text)
    (operands : list text) :
  words (replace "," " " line) = m :: operands ->
  OPCODES !! upper m = None ->
  assemble_instruction self line line_num = Raise (UnknownInstruction (upper m)).
Proof.
  intros Hparts Hnone. unfold assemble_instruction.
  rewrite Hparts, index_0, bind_Ok, Hnone.
  repeat case_decide;
    try match goal with
        | Heq : upper m = _ |- _ =>
            rewrite Heq in Hnone; vm_compute in Hnone; discriminate Hnone
        end.
  reflexivity.
Qed.

Lemma unknown_mnemonic_witness :
  assemble_instruction new_Assembler (str "mov X1, X2") 3
  = Raise (UnknownInstruction (str "MOV")).
Proof.
  apply (unknown_mnemonic new_Assembler (str "mov X1, X2") 3 (str "mov")
           [str "X1"; str "X2"]).
  - vm_compute. reflexivity.
  - vm_compute. reflexivity.
Defined.

Lemma words_blank (s : text) :
  Forall (fun c => isspace c = true) s -> words s = [].
Proof.
  induction 1 as [| c s Hc _ IH]; cbn [words]; [reflexivity |].
  rewrite Hc. exact IH.
Qed.

(** A line made of commas and whitespace only has no token at all, and it
    raises the indexing fault of [parts[0]]; a line that is a single comma
    comes through the scan of pass 2 and aborts the assembly this way. *)
Theorem line_of_commas
    (self : Assembler) (line : text) (line_num : Z) :
  Forall (fun c => c = ","%char \/ isspace c = true) line ->
  assemble_instruction self line line_num = Raise IndexError.
Proof.
  intros Hline.
  unfold assemble_instruction. rewrite words_blank; [reflexivity |].
  unfold replace. apply Forall_map. eapply Forall_impl; [exact Hline |].
  intros c [-> | Hc]; cbn beta; [reflexivity |].
  destruct (Ascii.eqb c ","); [reflexivity | exact Hc].
Qed.

Lemma line_of_commas_witness :
  assemble_instruction new_Assembler (str ", ,") 1 = Raise IndexError
  /\ snd (assemble new_Assembler (str ", ,"))
     = Aborted {| diag_line_num := 1; diag_line := str ", ,";
                  diag_error := IndexError |}.
Proof.
  split.
  - apply (line_of_commas new_Assembler (str ", ,") 1).
    repeat constructor; first [left; reflexivity | right; reflexivity].
  - vm_compute. reflexivity.
Defined.

Lemma replace_idem (a b : ascii) (s : text) :
  a <> b -> replace a b (replace a b s) = replace a b s.
Proof.
  intros Hab. unfold replace. rewrite map_map. apply map_ext. intros c.
  destruct (Ascii.eqb c a) eqn:Hc; [| rewrite Hc; reflexivity].
  destruct (Ascii.eqb b a) eqn:Hb; [| reflexivity].
  apply Ascii.eqb_eq in Hb. congruence.
Qed.

(** Commas are nothing but separators: a line in which every comma is
    written as a space assembles to the same result, so that missing,
    doubled or misplaced commas go unnoticed. *)
Theorem commas_are_spaces (self : Assembler) (line : text) (line_num : Z) :
  assemble_instruction self (replace "," " " line) line_num
  = assemble_instruction self line line_num.
Proof.
  unfold assemble_instruction. rewrite replace_idem by discriminate.
  reflexivity.
Qed.

(** ** The shape of a word *)

Lemma word_of_i (op a b imm : Z) :
  0 <= a < 32 -> 0 <= b < 32 -> word_of op (encode_i_type op a b imm).
Proof.
  intros Ha Hb. unfold word_of.
  rewrite encode_i_type_sum, pack3 by lia.
  pose proof (Z.mod_pos_bound imm (2 ^ 16) ltac:(lia)). eval_pow2. lia.
Qed.

Lemma word_of_u (op a imm : Z) :
  0 <= a < 32 -> word_of op (encode_u_type op a imm).
Proof.
  intros Ha. unfold word_of.
  rewrite encode_u_type_sum, pack2 by lia.
  pose proof (Z.mod_pos_bound imm (2 ^ 21) ltac:(lia)). eval_pow2. lia.
Qed.

Lemma word_of_r (op a b c : Z) :
  0 <= a < 32 -> 0 <= b < 32 -> 0 <= c < 32 ->
  word_of op (encode_r_type op a b c).
Proof.
  intros Ha Hb Hc. unfold word_of.
  rewrite encode_r_type_sum by lia. eval_pow2. lia.
Qed.

Lemma word_of_fpu_r3 (op a b c d : Z) :
  0 <= a < 32 -> 0 <= b < 32 -> 0 <= c < 32 -> 0 <= d < 32 ->
  word_of op (encode_fpu_r3 op a b c d).
Proof.
  intros Ha Hb Hc Hd. unfold word_of.
  rewrite encode_fpu_r3_sum by lia. eval_pow2. lia.
Qed.

Lemma word_of_ctrl (op : Z) : word_of op (encode_ctrl op).
Proof.
  unfold word_of, encode_ctrl. rewrite Z.shiftl_mul_pow2 by lia.
  eval_pow2. lia.
Qed.

Lemma word_of_shiftr (op w : Z) : word_of op w -> Z.shiftr w 26 = op.
Proof.
  unfold word_of. intros H. rewrite Z.shiftr_div_pow2 by lia.
  eval_pow2. Z.div_mod_to_equations. lia.
Qed.

Lemma bind_Ok_inv {A B : Type} (r : result A) (k : A -> result B) (b : B) :
  (r ≫= k) = Ok b -> exists a, r = Ok a /\ k a = Ok b.
Proof. destruct r as [a | e]; [intros H; exists a; auto | discriminate]. Qed.

Lemma register_at_range (ops : list text) (i : nat) (r : Z) :
  register_at ops i = Ok r -> 0 <= r < 32.
Proof.
  unfold register_at. intros H.
  apply bind_Ok_inv in H as (o & _ & H).
  exact (parse_register_range o r H).
Qed.

Lemma parse_memory_operand_range (tok : text) (offset r : Z) :
  parse_memory_operand tok = Ok (offset, r) -> 0 <= r < 32.
Proof.
  destruct (re_match_cases (strip tok))
    as [Hnone | (neg & ds & w & rest & Hwf & Htok)].
  - unfold parse_memory_operand. rewrite Hnone. discriminate.
  - rewrite (parse_memory_operand_prefix tok neg ds w rest Htok Hwf).
    destruct (4300 <? Z.of_nat (length ds)); [discriminate |].
    intros H. apply bind_Ok_inv in H as (r' & Hr & [= _ <-]).
    exact (parse_register_range w r' Hr).
Qed.

Lemma as_int_Ok (opcode : option Z) (op : Z) :
  as_int opcode = Ok op -> opcode = Some op.
Proof. destruct opcode; [intros [= ->]; reflexivity | discriminate]. Qed.

(** The opcodes of the table lie between 0 and 0x6A. *)
Lemma OPCODES_range (mnemonic : text) (op : Z) :
  OPCODES !! mnemonic = Some (Some op) -> 0 <= op <= 0x6A.
Proof.
  intros Hlook. apply elem_of_list_to_map_2 in Hlook.
  assert (Hall : forallb
                   (fun kv =>
                      match snd kv with
                      | None => true
                      | Some o => (0 <=? o) && (o <=? 0x6A)
                      end) OPCODES_items = true) by (vm_compute; reflexivity).
  rewrite forallb_forall in Hall.
  apply list_elem_of_In in Hlook. apply Hall in Hlook. cbn [snd] in Hlook.
  apply andb_prop in Hlook as [H1 H2].
  apply Z.leb_le in H1. apply Z.leb_le in H2. lia.
Qed.

Ltac word_step :=
  match goal with
  | H : (_ ≫= _) = Ok _ |- _ => apply bind_Ok_inv in H as (? & ? & H)
  | H : register_at _ _ = Ok _ |- _ => apply register_at_range in H
  | H : parse_memory_operand _ = Ok (_, _) |- _ =>
      apply parse_memory_operand_range in H
  | H : as_int _ = Ok _ |- _ => apply as_int_Ok in H
  | H : (let '(_, _) := ?x in _) = Ok _ |- _ => destruct x
  | H : (if ?b then _ else _) = Ok _ |- _ => destruct b; [| discriminate H]
  | H : Ok _ = Ok _ |- _ => injection H as <-
  | H : Raise _ = Ok _ |- _ => discriminate H
  | H : Some _ = Some _ |- _ => injection H as <-
  end.

Lemma assemble_instruction_word_of
    (self : Assembler) (line : text) (line_num : Z) (m : text)
    (operands : list text) (w : Z) :
  words (replace "," " " line) = m :: operands ->
  assemble_instruction self line line_num = Ok w ->
  exists op, effective_opcode (upper m) = Some op /\ word_of op w.
Proof.
  intros Hparts. unfold assemble_instruction, effective_opcode.
  rewrite Hparts, index_0, bind_Ok. cbn [tl].
  generalize (upper m). intros mn.
  rewrite ?opcode_of_ADDI, ?opcode_of_JAL.
  repeat case_decide; intros Hrun;
    try (destruct (OPCODES !! mn) as [opcode |]; [| discriminate Hrun]);
    rewrite ?bind_Ok in Hrun;
    repeat word_step; subst;
    (eexists; split; [reflexivity |]);
    lazymatch goal with
    | |- word_of _ (encode_i_type _ _ _ _) => apply word_of_i; lia
    | |- word_of _ (encode_s_type _ _ _ _) => apply word_of_i; lia
    | |- word_of _ (encode_b_type _ _ _ _) => apply word_of_i; lia
    | |- word_of _ (encode_u_type _ _ _) => apply word_of_u; lia
    | |- word_of _ (encode_r_type _ _ _ _) => apply word_of_r; lia
    | |- word_of _ (encode_fpu_r3 _ _ _ _ _) => apply word_of_fpu_r3; lia
    | |- word_of _ (encode_ctrl _) => apply word_of_ctrl
    end.
Qed.

(** Every word that a line assembles to is the opcode the line is encoded
    with ([OPCODES['ADDI']] for NOP, MV and LI, [OPCODES['JAL']] for J, the
    entry of the mnemonic otherwise) shifted to bit 26, with the operand
    fields below bit 26: shifting the word right by 26 gives the opcode
    back, the word is never negative and is below 2^33, and it fits 32 bits
    exactly when the opcode is below 64. *)
Theorem assembled_word_shape
    (self : Assembler) (line : text) (line_num : Z) (m : text)
    (operands : list text) (w : Z) :
  words (replace "," " " line) = m :: operands ->
  assemble_instruction self line line_num = Ok w ->
  effective_opcode (upper m) = Some (Z.shiftr w 26)
  /\ 0 <= w < 2 ^ 33
  /\ (w < 2 ^ 32 <-> Z.shiftr w 26 < 64).
Proof.
  intros Hparts Hrun.
  destruct (assemble_instruction_word_of self line line_num m operands w
              Hparts Hrun) as (op & Hop & Hw).
  rewrite (word_of_shiftr op w Hw).
  assert (Hrange : 0 <= op <= 0x6A).
  { unfold effective_opcode in Hop. revert Hop.
    repeat case_decide;
      try lazymatch goal with
          | |- Some _ = Some _ -> _ => intros [= <-]; lia
          end.
    destruct (OPCODES !! upper m) as [opcode |] eqn:Hlook; [| discriminate].
    intros ->. exact (OPCODES_range _ _ Hlook). }
  unfold word_of in Hw. revert Hw. eval_pow2. intros Hw.
  split; [exact Hop |]. split; lia.
Qed.

Lemma assembled_word_shape_witness :
  Z.shiftr 0x1A4200000 26 = 0x69 /\ ~ 0x1A4200000 < 2 ^ 32.
Proof.
  destruct (assembled_word_shape new_Assembler (str "LUI X1, 0") 1 (str "LUI")
              [str "X1"; str "0"] 0x1A4200000) as (Hop & _ & Hfit).
  - vm_compute. reflexivity.
  - vm_compute. reflexivity.
  - split; [reflexivity |]. intros Hlt. apply Hfit in Hlt.
    vm_compute in Hlt. discriminate Hlt.
Defined.

(** ** The output of a whole assembly *)

(** [line_num] serves the diagnostic only. *)
Lemma assemble_instruction_line_num (self : Assembler) (line : text) (n n' : Z) :
  assemble_instruction self line n = assemble_instruction self line n'.
Proof. reflexivity. Qed.

Lemma second_pass_loop_words (lines : list text) (self : Assembler)
    (code : list Z) (n : Z) (self' : Assembler) (code' : list Z) :
  second_pass_loop self code n lines = (self', Completed code') ->
  exists ws : list Z,
    code' = code ++ ws
    /\ length ws = length (omap second_pass_scan lines)
    /\ forall (i : nat) (instr : text),
         omap second_pass_scan lines !! i = Some instr ->
         exists w,
           ws !! i = Some w
           /\ assemble_instruction
                {| labels := labels self;
                   current_address := current_address self + 4 * Z.of_nat i |}
                instr 0 = Ok w.
Proof.
  revert self code n.
  induction lines as [| l lines IH]; intros self code n Hrun.
  - cbn in Hrun. injection Hrun as <- <-. exists [].
    rewrite app_nil_r. repeat split. intros i instr Hi. discriminate Hi.
  - cbn [second_pass_loop] in Hrun. cbn [omap list_omap].
    destruct (second_pass_scan l) as [instr |] eqn:Hscan.
    + destruct (assemble_instruction self instr n) as [w | e] eqn:Hw;
        [| discriminate Hrun].
      apply IH in Hrun as (ws & -> & Hlen & Hws).
      exists (w :: ws). rewrite <- app_assoc. split; [reflexivity |].
      split; [cbn [length]; rewrite Hlen; reflexivity |].
      intros [| i] instr' Hi.
      * injection Hi as <-. exists w. split; [reflexivity |].
        replace (current_address self + 4 * Z.of_nat 0)
          with (current_address self) by lia.
        destruct self. exact Hw.
      * destruct (Hws i instr' Hi) as (w' & Hw' & Hasm).
        exists w'. split; [exact Hw' |].
        cbn [advance labels current_address] in Hasm.
        replace (current_address self + 4 * Z.of_nat (S i))
          with (current_address self + 4 + 4 * Z.of_nat i) by lia.
        exact Hasm.
    + apply IH in Hrun as (ws & -> & Hlen & Hws).
      exists ws. repeat split; assumption.
Qed.

(** When an assembly succeeds, the machine code has exactly one word for
    each line on which the scan finds an instruction (none for blank lines,
    comments, directives and lines with a label only), in the order of the
    lines: word [i] is what instruction [i] assembles to at the address
    [4 * i] with the label table that pass 1 has built.  The object is left
    with that table and with the address just past the last word. *)
Theorem assemble_output (self : Assembler) (source : text) (code : list Z) :
  snd (assemble self source) = Completed code ->
  let lines := split "010" source in
  let table := labels (first_pass self lines) in
  length code = length (omap second_pass_scan lines)
  /\ (forall (i : nat) (instr : text),
        omap second_pass_scan lines !! i = Some instr ->
        exists w,
          code !! i = Some w
          /\ forall n,
               assemble_instruction
                 {| labels := table; current_address := 4 * Z.of_nat i |}
                 instr n = Ok w)
  /\ labels (fst (assemble self source)) = table
  /\ current_address (fst (assemble self source)) = 4 * Z.of_nat (length code).
Proof.
  intros Hrun lines table. unfold assemble, second_pass in *.
  fold lines in Hrun |- *. fold table in Hrun |- *.
  destruct (second_pass_loop {| labels := table; current_address := 0 |} [] 1
              lines) as [self' out] eqn:Hloop.
  cbn [snd fst] in *. subst out.
  pose proof (second_pass_loop_words _ _ _ _ _ _ Hloop) as (ws & Hcode & Hlen & Hws).
  pose proof (second_pass_loop_completed _ _ _ _ _ _ Hloop) as (Hlab & Haddr & _).
  cbn [app] in Hcode. subst ws. cbn in Hlab, Haddr.
  split; [exact Hlen |]. split; [| split; [exact Hlab | lia]].
  intros i instr Hi. destruct (Hws i instr Hi) as (w & Hw & Hasm).
  exists w. split; [exact Hw |]. intros n. exact Hasm.
Qed.

Lemma assemble_output_witness :
  length [0x00221800; 0x04810001]
  = length (omap second_pass_scan (split "010" start_program)).
Proof.
  destruct (assemble_output new_Assembler start_program
              [0x00221800; 0x04810001]) as (H & _).
  - vm_compute. reflexivity.
  - exact H.
Defined.

(** An assembly returns machine code exactly when no line raises an
    exception with the label table of pass 1; otherwise it aborts. *)
Theorem assemble_completes_iff (self : Assembler) (source : text) :
  let lines := split "010" source in
  let table := labels (first_pass self lines) in
  (exists code, snd (assemble self source) = Completed code)
  <-> Forall (fun l => ~ raises table l) lines.
Proof.
  intros lines table. unfold assemble, second_pass.
  fold lines. fold table. split.
  - intros (code & Hrun).
    destruct (second_pass_loop {| labels := table; current_address := 0 |} [] 1
                lines) as [self' out] eqn:Hloop.
    cbn [snd] in Hrun. subst out.
    apply Forall_forall. intros l Hin (instr & e & a & n & Hscan & Hraise).
    destruct (second_pass_loop_words _ _ _ _ _ _ Hloop) as (ws & _ & _ & Hws).
    assert (Hmem : instr ∈ omap second_pass_scan lines).
    { apply list_elem_of_omap. exists l.
      split; [exact Hin | exact Hscan]. }
    apply list_elem_of_lookup in Hmem as (i & Hi).
    destruct (Hws i instr Hi) as (w & _ & Hok). cbn [labels current_address] in Hok.
    rewrite (raises_anywhere _ _ _ _ _ (0 + 4 * Z.of_nat i) 0 Hraise) in Hok.
    discriminate Hok.
  - intros Hall.
    destruct (second_pass_loop_no_error lines
                {| labels := table; current_address := 0 |} [] 1 Hall)
      as (s1 & c1 & Hl1 & _).
    exists c1. rewrite Hl1. reflexivity.
Qed.

Lemma assemble_completes_iff_witness :
  Forall (fun l => ~ raises (labels (first_pass new_Assembler
                                       (split "010" start_program))) l)
    (split "010" start_program).
Proof.
  apply (proj1 (assemble_completes_iff new_Assembler start_program)).
  exists [0x00221800; 0x04810001]. vm_compute. reflexivity.
Defined.

(** ** Lines that leave no trace *)

Lemma hd_split_comment (code comment : text) :
  Forall (fun c => Ascii.eqb c "#" = false) code ->
  hd [] (split "#" (code ++ "#"%char :: comment)) = hd [] (split "#" code).
Proof.
  intros H. rewrite split_app_sep by exact H.
  rewrite (split_no_sep "#" code) by exact H. reflexivity.
Qed.

(** A comment changes nothing: both passes treat a line as they treat what
    stands before its first [#]. *)
Theorem comment_ignored (self : Assembler) (code comment : text) :
  Forall (fun c => Ascii.eqb c "#" = false) code ->
  first_pass_line self (code ++ "#"%char :: comment) = first_pass_line self code
  /\ second_pass_scan (code ++ "#"%char :: comment) = second_pass_scan code.
Proof.
  intros H. unfold first_pass_line, second_pass_scan.
  rewrite (hd_split_comment code comment H). split; reflexivity.
Qed.

Lemma comment_ignored_witness :
  second_pass_scan (str "  ADD X1, X2, X3  # sum") = Some (str "ADD X1, X2, X3").
Proof.
  refine (eq_trans (proj2 (comment_ignored new_Assembler (str "  ADD X1, X2, X3  ")
                             (str " sum") _)) _).
  - repeat constructor.
  - vm_compute. reflexivity.
Defined.

Lemma first_pass_line_noop (self : Assembler) (l : text) :
  second_pass_scan l = None -> label_of l = None -> first_pass_line self l = self.
Proof.
  intros Hscan Hlab.
  pose proof (first_pass_line_labels self l) as H1.
  pose proof (first_pass_line_address self l) as H2.
  rewrite Hlab in H1. rewrite Hscan in H2.
  destruct (first_pass_line self l) as [t a], self as [t0 a0].
  cbn in H1, H2. subst. f_equal. lia.
Qed.

Lemma second_pass_loop_renumber (lines : list text) (self : Assembler)
    (code : list Z) (n n' : Z) (self' : Assembler) (code' : list Z) :
  second_pass_loop self code n lines = (self', Completed code') ->
  second_pass_loop self code n' lines = (self', Completed code').
Proof.
  revert self code n n'.
  induction lines as [| l lines IH]; intros self code n n' Hrun; [exact Hrun |].
  cbn [second_pass_loop] in *.
  destruct (second_pass_scan l) as [instr |]; [| exact (IH _ _ _ _ Hrun)].
  rewrite (assemble_instruction_line_num self instr n' n).
  destruct (assemble_instruction self instr n); [| discriminate Hrun].
  exact (IH _ _ _ _ Hrun).
Qed.

Lemma skip_line_completed (self : Assembler) (pre post : list text) (l : text)
    (code : list Z) :
  second_pass_scan l = None -> label_of l = None ->
  snd (second_pass (first_pass self (pre ++ l :: post)) (pre ++ l :: post))
  = Completed code ->
  snd (second_pass (first_pass self (pre ++ post)) (pre ++ post))
  = Completed code.
Proof.
  intros Hscan Hlab.
  assert (Hfirst : first_pass self (pre ++ l :: post) = first_pass self (pre ++ post)).
  { unfold first_pass. rewrite !first_pass_loop_app. cbn [fold_left].
    rewrite first_pass_line_noop by assumption. reflexivity. }
  rewrite Hfirst. unfold second_pass. rewrite !second_pass_loop_app.
  destruct (second_pass_loop _ [] 1 pre) as [s1 [c1 | d1]]; [| auto].
  cbn [second_pass_loop]. rewrite Hscan.
  destruct (second_pass_loop s1 c1 (1 + Z.of_nat (length pre) + 1) post)
    as [s2 o2] eqn:H2.
  cbn [snd]. intros ->.
  rewrite (second_pass_loop_renumber _ _ _ _ (1 + Z.of_nat (length pre)) _ _ H2).
  reflexivity.
Qed.

Lemma insert_line_completed (self : Assembler) (pre post : list text) (l : text)
    (code : list Z) :
  second_pass_scan l = None -> label_of l = None ->
  snd (second_pass (first_pass self (pre ++ post)) (pre ++ post))
  = Completed code ->
  snd (second_pass (first_pass self (pre ++ l :: post)) (pre ++ l :: post))
  = Completed code.
Proof.
  intros Hscan Hlab.
  assert (Hfirst : first_pass self (pre ++ l :: post) = first_pass self (pre ++ post)).
  { unfold first_pass. rewrite !first_pass_loop_app. cbn [fold_left].
    rewrite first_pass_line_noop by assumption. reflexivity. }
  rewrite Hfirst. unfold second_pass. rewrite !second_pass_loop_app.
  destruct (second_pass_loop _ [] 1 pre) as [s1 [c1 | d1]]; [| auto].
  cbn [second_pass_loop]. rewrite Hscan.
  destruct (second_pass_loop s1 c1 (1 + Z.of_nat (length pre)) post)
    as [s2 o2] eqn:H2.
  cbn [snd]. intros ->.
  rewrite (second_pass_loop_renumber _ _ _ _
             (1 + Z.of_nat (length pre) + 1) _ _ H2).
  reflexivity.
Qed.

(** A line on which the scan finds neither a label nor an instruction (a
    blank line, a comment, a directive) can be put in or taken out anywhere
    without changing the machine code of a program that assembles. *)
Theorem silent_line_irrelevant
    (self : Assembler) (pre post : list text) (l : text) (code : list Z) :
  second_pass_scan l = None -> label_of l = None ->
  snd (second_pass (first_pass self (pre ++ l :: post)) (pre ++ l :: post))
  = Completed code
  <-> snd (second_pass (first_pass self (pre ++ post)) (pre ++ post))
      = Completed code.
Proof.
  intros Hscan Hlab. split.
  - apply skip_line_completed; assumption.
  - apply insert_line_completed; assumption.
Qed.

Lemma silent_line_irrelevant_witness :
  snd (second_pass
         (first_pass new_Assembler
            [str "ADD X1, X2, X3"; str "  # note"; str "ADDI X4, X1, 1"])
         [str "ADD X1, X2, X3"; str "  # note"; str "ADDI X4, X1, 1"])
  = Completed [0x00221800; 0x04810001].
Proof.
  apply (silent_line_irrelevant new_Assembler [str "ADD X1, X2, X3"]
           [str "ADDI X4, X1, 1"] (str "  # note")).
  - vm_compute. reflexivity.
  - vm_compute. reflexivity.
  - vm_compute. reflexivity.
Defined.

(** ** The label table of pass 1 *)

Lemma first_pass_loop_labels (lines : list text) (s : Assembler) :
  current_address (fold_left first_pass_line lines s)
  = current_address s + 4 * Z.of_nat (length (omap second_pass_scan lines))
  /\ forall name : text,
       Exists (fun l => label_of l = Some name) lines ->
       exists k : nat,
         (k <= length (omap second_pass_scan lines))%nat
         /\ labels (fold_left first_pass_line lines s) !! name
            = Some (current_address s + 4 * Z.of_nat k).
Proof.
  revert s. induction lines as [| l lines IH]; intros s.
  - split; [cbn; lia |]. intros name Hex. inversion Hex.
  - cbn [fold_left]. destruct (IH (first_pass_line s l)) as [Haddr Hlab].
    pose proof (first_pass_line_address s l) as Hstep.
    assert (Hcount : Z.of_nat (length (omap second_pass_scan (l :: lines)))
                     = match second_pass_scan l with Some _ => 1 | None => 0 end
                       + Z.of_nat (length (omap second_pass_scan lines))).
    { cbn [omap list_omap]. destruct (second_pass_scan l); cbn [length]; lia. }
    split; [rewrite Haddr, Hstep, Hcount; destruct (second_pass_scan l); lia |].
    intros name Hex.
    destruct (decide (Exists (fun l => label_of l = Some name) lines))
      as [Hlater | Hnot].
    + destruct (Hlab name Hlater) as (k & Hk & Hlook).
      exists (match second_pass_scan l with Some _ => S k | None => k end).
      split; [cbn [omap list_omap]; destruct (second_pass_scan l);
              cbn [length]; lia |].
      rewrite Hlook, Hstep. f_equal. destruct (second_pass_scan l); lia.
    + inversion Hex as [? ? Hhere | ? ? Hl]; subst; [| contradiction].
      exists 0%nat. split; [lia |].
      rewrite first_pass_loop_keeps.
      * rewrite first_pass_line_labels, Hhere, lookup_insert_eq. f_equal. lia.
      * apply Forall_forall. intros l' Hin Hdef. apply Hnot.
        apply Exists_exists. exists l'. split; [| exact Hdef].
        exact Hin.
Qed.

(** Pass 1 starts the address at 0 whatever it was, and ends at four times
    the number of instruction lines.  It never removes a label: a label that
    no line defines keeps the address it had in the object (so that labels of
    an earlier [assemble] on the same object stay visible), and a label that
    some line defines gets a multiple of 4 between 0 and the final
    address. *)
Theorem first_pass_labels (self : Assembler) (lines : list text) :
  current_address (first_pass self lines)
  = 4 * Z.of_nat (length (omap second_pass_scan lines))
  /\ forall name : text,
       (Forall (fun l => label_of l <> Some name) lines ->
        labels (first_pass self lines) !! name = labels self !! name)
       /\ (Exists (fun l => label_of l = Some name) lines ->
           exists k : nat,
             (k <= length (omap second_pass_scan lines))%nat
             /\ labels (first_pass self lines) !! name
                = Some (4 * Z.of_nat k)).
Proof.
  unfold first_pass.
  destruct (first_pass_loop_labels lines
              {| labels := labels self; current_address := 0 |}) as [Haddr Hlab].
  split; [exact Haddr |]. intros name. split.
  - intros Hall. rewrite first_pass_loop_keeps by exact Hall. reflexivity.
  - intros Hex. destruct (Hlab name Hex) as (k & Hk & Hlook).
    exists k. split; [exact Hk | exact Hlook].
Qed.

Lemma first_pass_labels_witness :
  labels (first_pass {| labels := {[ str "old" := 40 ]}; current_address := 8 |}
            [str "NOP"; str "here: NOP"]) !! str "old" = Some 40.
Proof.
  refine (eq_trans
            (proj1 (proj2 (first_pass_labels
                             {| labels := {[ str "old" := 40 ]};
                                current_address := 8 |}
                             [str "NOP"; str "here: NOP"]) (str "old")) _) _).
  - repeat constructor; vm_compute; discriminate.
  - vm_compute. reflexivity.
Defined.

(** ** Register names *)

Lemma upper_char_idem (c : ascii) : upper_char (upper_char c) = upper_char c.
Proof. destruct c as [[] [] [] [] [] [] [] []]; reflexivity. Qed.

Lemma upper_idem (s : text) : upper (upper s) = upper s.
Proof.
  unfold upper. rewrite map_map. apply map_ext. intros c. apply upper_char_idem.
Qed.

Lemma REGISTERS_x_name (i : nat) :
  (i < 32)%nat -> REGISTERS !! x_name i = Some (Z.of_nat i).
Proof.
  intros Hi.
  assert (Hall : forallb (fun i => bool_decide
                            (REGISTERS !! x_name i = Some (Z.of_nat i)))
                   (seq 0 32) = true) by (vm_compute; reflexivity).
  rewrite forallb_forall in Hall.
  apply (bool_decide_unpack _). apply Is_true_eq_left.
  apply Hall. apply in_seq. lia.
Qed.

Lemma upper_char_space (c : ascii) : isspace c = true -> upper_char c = c.
Proof.
  destruct c as [[] [] [] [] [] [] [] []]; intros H;
    try discriminate H; reflexivity.
Qed.

Lemma upper_spaces (pad : text) :
  Forall (fun c => isspace c = true) pad -> upper pad = pad.
Proof.
  induction 1 as [| c pad Hc _ IH]; [reflexivity |].
  unfold upper in *. cbn [map]. rewrite IH, (upper_char_space c Hc).
  reflexivity.
Qed.

Lemma lstrip_spaces (pad s : text) :
  Forall (fun c => isspace c = true) pad -> lstrip (pad ++ s) = lstrip s.
Proof.
  induction 1 as [| c pad Hc _ IH]; [reflexivity |].
  cbn [app lstrip]. rewrite Hc. exact IH.
Qed.

Lemma rstrip_spaces (s pad : text) :
  Forall (fun c => isspace c = true) pad -> rstrip (s ++ pad) = rstrip s.
Proof.
  intros Hpad. unfold rstrip. rewrite rev_app_distr.
  rewrite lstrip_spaces; [reflexivity |].
  apply Forall_forall. intros c Hc. rewrite Forall_forall in Hpad.
  apply Hpad. apply list_elem_of_In. apply in_rev. apply list_elem_of_In.
  exact Hc.
Qed.

(** Whitespace around a text does not count for [strip]. *)
Lemma strip_spaces (before s after : text) :
  Forall (fun c => isspace c = true) before ->
  Forall (fun c => isspace c = true) after ->
  strip (before ++ s ++ after) = strip s.
Proof.
  intros Hb Ha. unfold strip. rewrite lstrip_spaces by exact Hb.
  induction s as [| c s IH].
  - cbn [app]. rewrite <- (app_nil_r after), lstrip_spaces by exact Ha.
    reflexivity.
  - cbn [app lstrip]. destruct (isspace c); [exact IH |].
    apply (rstrip_spaces (c :: s) after Ha).
Qed.

(** [parse_register] takes a name in any letter case, with any whitespace
    around it: the result is that of the name in upper case, and that of the
    name between any whitespace.  The names X0 to X31 give the ids 0 to 31,
    every id it returns is in 0..31, and a failure reports the name in upper
    case, trimmed. *)
Theorem parse_register_names (reg_str : text) :
  parse_register (upper reg_str) = parse_register reg_str
  /\ (forall before after : text,
         Forall (fun c => isspace c = true) before ->
         Forall (fun c => isspace c = true) after ->
         parse_register (before ++ reg_str ++ after) = parse_register reg_str)
  /\ (forall i : nat,
         (i < 32)%nat -> strip (upper reg_str) = x_name i ->
         parse_register reg_str = Ok (Z.of_nat i))
  /\ (forall r : Z, parse_register reg_str = Ok r -> 0 <= r < 32)
  /\ (forall e : error,
         parse_register reg_str = Raise e ->
         e = UnknownRegister (strip (upper reg_str))
         /\ REGISTERS !! strip (upper reg_str) = None).
Proof.
  split; [unfold parse_register; rewrite upper_idem; reflexivity |].
  split; [| split; [| split]].
  - intros before after Hb Ha. unfold parse_register.
    assert (Heq : strip (upper (before ++ reg_str ++ after))
                  = strip (upper reg_str)).
    { unfold upper. rewrite !map_app.
      fold (upper before). fold (upper after). fold (upper reg_str).
      rewrite (upper_spaces before Hb), (upper_spaces after Ha).
      apply strip_spaces; assumption. }
    rewrite Heq. reflexivity.
  - intros i Hi Hname. unfold parse_register.
    rewrite Hname, (REGISTERS_x_name i Hi). reflexivity.
  - intros r. apply parse_register_range.
  - intros e. unfold parse_register.
    destruct (REGISTERS !! strip (upper reg_str)); [discriminate |].
    intros [= <-]. split; reflexivity.
Qed.

Lemma parse_register_names_witness :
  parse_register (str " x17 ") = Ok 17
  /\ parse_register (str "  " ++ str "Tid" ++ str " ") = Ok 1.
Proof.
  split.
  - apply (proj1 (proj2 (proj2 (parse_register_names (str " x17 ")))) 17%nat).
    + lia.
    + vm_compute. reflexivity.
  - refine (eq_trans
              (proj1 (proj2 (parse_register_names (str "Tid")))
                 (str "  ") (str " ") _ _) _).
    + repeat constructor.
    + repeat constructor.
    + vm_compute. reflexivity.
Defined.

(** ** Numeric literals *)

Lemma valid_digit_facts (c : ascii) :
  (digit_value c <? 37) = true ->
  isspace c = false
  /\ Ascii.eqb c "_" = false
  /\ (forall (A : Type) (x y z : A),
        match c with "+"%char => x | "-"%char => y | _ => z end = z)
  /\ (forall (A : Type) (x y : A),
        match c with "_"%char => x | _ => y end = y).
Proof.
  destruct c as [[] [] [] [] [] [] [] []]; intros H;
    try discriminate H; repeat split; reflexivity.
Qed.

Lemma decimal_digit_facts (c : ascii) :
  (digit_value c <? 10) = true ->
  Ascii.eqb "x" c = false /\ Ascii.eqb "X" c = false
  /\ Ascii.eqb "b" c = false /\ Ascii.eqb "B" c = false.
Proof.
  destruct c as [[] [] [] [] [] [] [] []]; intros H;
    try discriminate H; repeat split; reflexivity.
Qed.

Lemma digit_below (base : Z) (c : ascii) :
  base <= 36 -> (digit_value c <? base) = true -> (digit_value c <? 37) = true.
Proof.
  intros Hb Hc. apply Z.ltb_lt in Hc. apply Z.ltb_lt. lia.
Qed.

(** The digit table of [int()] agrees with the values of the digits. *)
Lemma digit_of_value (c : ascii) (d : Z) :
  digit_of c = Some d -> digit_value c = d.
Proof.
  destruct c as [[] [] [] [] [] [] [] []]; intros H;
    try discriminate H; injection H as <-; reflexivity.
Qed.

Lemma digits_of_value (base : Z) (body : text) :
  digits_of base body ->
  body <> []
  /\ Forall (fun c => (digit_value c <? base) = true) body
  /\ forall acc : Z,
       fold_left (fun a c => a * base + digit_value c) body acc
       = fold_left (fun a c => a * base + default 0 (digit_of c)) body acc.
Proof.
  intros [Hne Hbody]. split; [exact Hne |]. clear Hne.
  induction Hbody as [| c cs (d & Hd & Hlt) _ IH].
  - split; [constructor | reflexivity].
  - destruct IH as [IH1 IH2]. split.
    + constructor; [| exact IH1].
      rewrite (digit_of_value c d Hd). apply Z.ltb_lt. exact Hlt.
    + intros acc. cbn [fold_left].
      rewrite (digit_of_value c d Hd), Hd. cbn [default]. apply IH2.
Qed.

Lemma scan_digits_valid (base : Z) (cs : text) (acc : Z) (n : nat) :
  base <= 36 ->
  Forall (fun c => (digit_value c <? base) = true) cs ->
  scan_digits base false acc n cs
  = Some (fold_left (fun a c => a * base + digit_value c) cs acc,
          (n + length cs)%nat, []).
Proof.
  intros Hb Hcs. revert acc n.
  induction Hcs as [| c cs Hc _ IH]; intros acc n; cbn [scan_digits].
  - cbn. rewrite Nat.add_0_r. reflexivity.
  - destruct (valid_digit_facts c (digit_below base c Hb Hc)) as (_ & -> & _).
    rewrite Hc, IH. cbn [fold_left length]. do 3 f_equal. lia.
Qed.

(** What [py_int] does with the digits, once the sign and the prefix are
    gone. *)
Lemma py_int_body (base sgn : Z) (body : text) :
  base <= 36 -> digits_of base body ->
  match body with
  | "_"%char :: _ => None
  | _ =>
      match scan_digits base false 0 0 body with
      | Some (z, S n, rest) =>
          if limited base && (max_str_digits <? Z.of_nat (S n)) then None
          else
            match lstrip rest with
            | [] => Some (sgn * z)
            | _ :: _ => None
            end
      | _ => None
      end
  end = if limited base && (4300 <? Z.of_nat (length body)) then None
        else Some (sgn * number base body).
Proof.
  intros Hb Hd. destruct (digits_of_value base body Hd) as (Hne & Hbody & Hnum).
  rewrite scan_digits_valid by assumption.
  unfold number. rewrite <- Hnum.
  destruct body as [| c cs]; [contradiction |].
  destruct (valid_digit_facts c (digit_below base c Hb (Forall_inv Hbody)))
    as (_ & _ & _ & Hus).
  rewrite Hus. cbn [Nat.add length lstrip]. unfold max_str_digits.
  reflexivity.
Qed.

Lemma py_int_decimal (sign body : text) (sgn : Z) :
  digits_of 10 body ->
  (sign = [] /\ sgn = 1) \/ (sign = str "+" /\ sgn = 1)
  \/ (sign = str "-" /\ sgn = -1) ->
  py_int (sign ++ body) 10
  = if 4300 <? Z.of_nat (length body) then None
    else Some (sgn * number 10 body).
Proof.
  intros Hd Hsign.
  destruct (digits_of_value 10 body Hd) as (Hne & Hbody & _).
  pose proof (py_int_body 10 sgn body ltac:(lia) Hd) as Hrun.
  change (limited 10) with true in Hrun. cbn [andb] in Hrun.
  rewrite <- Hrun. clear Hrun.
  unfold py_int.
  destruct Hsign as [[-> ->] | [[-> ->] | [-> ->]]];
    cbn [str list_ascii_of_string app lstrip].
  - destruct body as [| c cs]; [contradiction |].
    destruct (valid_digit_facts c
                (digit_below 10 c ltac:(lia) (Forall_inv Hbody)))
      as (Hsp & _ & Hsg & _).
    cbn [lstrip]. rewrite Hsp, Hsg, skip_prefix_10. reflexivity.
  - change (isspace "+") with false. cbn iota. rewrite skip_prefix_10.
    reflexivity.
  - change (isspace "-") with false. cbn iota. rewrite skip_prefix_10.
    reflexivity.
Qed.

Lemma py_int_prefixed (base : Z) (p : ascii) (body : text) :
  (base = 16 /\ (p = "x" \/ p = "X")%char)
  \/ (base = 2 /\ (p = "b" \/ p = "B")%char) ->
  digits_of base body ->
  py_int ("0"%char :: p :: body) base = Some (number base body).
Proof.
  intros Hp Hd.
  destruct (digits_of_value base body Hd) as (Hne & Hbody & _).
  assert (Hb : base <= 36) by (destruct Hp as [[-> _] | [-> _]]; lia).
  pose proof (py_int_body base 1 body Hb Hd) as Hrun.
  assert (Hlim : limited base = false)
    by (destruct Hp as [[-> _] | [-> _]]; reflexivity).
  rewrite Hlim in Hrun. cbn [andb] in Hrun.
  rewrite Z.mul_1_l in Hrun. rewrite <- Hrun. clear Hrun.
  destruct body as [| c cs]; [contradiction |].
  destruct (valid_digit_facts c (digit_below base c Hb (Forall_inv Hbody)))
    as (_ & _ & _ & Hus).
  unfold py_int. cbn [lstrip]. change (isspace "0") with false. cbn iota.
  destruct Hp as [[-> [-> | ->]] | [-> [-> | ->]]];
    cbn [skip_prefix Z.eqb Pos.eqb Ascii.eqb Bool.eqb andb orb];
    rewrite (Hus text); reflexivity.
Qed.

(** Numeric literals.  A token that is not a label is read as a number:
    decimal digits with an optional sign, hexadecimal digits (of either
    case) after [0x] or [0X], binary digits after [0b] or [0B].  The value is
    the number the digits write, the most significant first; it does not
    depend on the address, even for a relative operand.  A decimal literal
    of more than 4300 digits is refused: "Cannot parse immediate". *)
Theorem parse_immediate_literal
    (tok : text) (table : option (gmap text Z)) (current_addr : Z)
    (relative : bool) (body : text) :
  not_a_label table tok ->
  (digits_of 10 body ->
   (Z.of_nat (length body) <= 4300 ->
    (strip tok = body \/ strip tok = str "+" ++ body ->
     parse_immediate tok table current_addr relative = Ok (number 10 body))
    /\ (strip tok = str "-" ++ body ->
        parse_immediate tok table current_addr relative
        = Ok (- number 10 body)))
   /\ (4300 < Z.of_nat (length body) ->
       strip tok = body \/ strip tok = str "+" ++ body
       \/ strip tok = str "-" ++ body ->
       parse_immediate tok table current_addr relative
       = Raise (ImmediateParseError (strip tok))))
  /\ (digits_of 16 body ->
      strip tok = str "0x" ++ body \/ strip tok = str "0X" ++ body ->
      parse_immediate tok table current_addr relative = Ok (number 16 body))
  /\ (digits_of 2 body ->
      strip tok = str "0b" ++ body \/ strip tok = str "0B" ++ body ->
      parse_immediate tok table current_addr relative = Ok (number 2 body)).
Proof.
  intros Hnot.
  assert (Hfound : match table with
                   | Some m => if decide (m = ∅) then None else m !! strip tok
                   | None => None
                   end = None).
  { destruct table as [m |]; [| reflexivity].
    destruct (decide (m = ∅)); [reflexivity | apply Hnot; reflexivity]. }
  assert (Hdec : forall sign sgn,
             digits_of 10 body ->
             (sign = [] /\ sgn = 1) \/ (sign = str "+" /\ sgn = 1)
             \/ (sign = str "-" /\ sgn = -1) ->
             strip tok = sign ++ body ->
             parse_immediate tok table current_addr relative
             = if 4300 <? Z.of_nat (length body)
               then Raise (ImmediateParseError (strip tok))
               else Ok (sgn * number 10 body)).
  { intros sign sgn Hd Hsign Htok. unfold parse_immediate.
    rewrite Hfound, Htok.
    rewrite (py_int_decimal sign body sgn Hd Hsign).
    assert (Hno : forall p : ascii,
               (p = "x" \/ p = "X" \/ p = "b" \/ p = "B")%char ->
               startswith ["0"%char; p] (sign ++ body) = false).
    { intros p Hp.
      destruct (digits_of_value 10 body Hd) as (Hne & Hbody & _).
      destruct Hsign as [[-> _] | [[-> _] | [-> _]]];
        cbn [str list_ascii_of_string app startswith];
        [| reflexivity | reflexivity].
      destruct body as [| c [| c' cs]]; [contradiction | |];
        cbn [startswith]; [apply andb_false_r |].
      pose proof (Forall_inv (Forall_inv_tail Hbody)) as Hc'.
      destruct (decimal_digit_facts c' Hc') as (H1 & H2 & H3 & H4).
      destruct Hp as [-> | [-> | [-> | ->]]];
        rewrite ?H1, ?H2, ?H3, ?H4; apply andb_false_r. }
    change (str "0x") with ["0"%char; "x"%char].
    change (str "0X") with ["0"%char; "X"%char].
    change (str "0b") with ["0"%char; "b"%char].
    change (str "0B") with ["0"%char; "B"%char].
    rewrite !Hno by tauto. cbn [orb].
    destruct (4300 <? Z.of_nat (length body)); reflexivity. }
  split; [| split].
  - intros Hd. split.
    + intros Hlen.
      assert (Hle : (4300 <? Z.of_nat (length body)) = false)
        by (apply Z.ltb_ge; exact Hlen).
      split.
      * intros [Htok | Htok].
        -- rewrite (Hdec [] 1 Hd), Hle; [f_equal; lia | tauto | exact Htok].
        -- rewrite (Hdec (str "+") 1 Hd), Hle;
             [f_equal; lia | tauto | exact Htok].
      * intros Htok.
        rewrite (Hdec (str "-") (-1) Hd), Hle;
          [f_equal; lia | tauto | exact Htok].
    + intros Hlen Htok.
      assert (Hgt : (4300 <? Z.of_nat (length body)) = true)
        by (apply Z.ltb_lt; exact Hlen).
      destruct Htok as [Htok | [Htok | Htok]].
      * rewrite (Hdec [] 1 Hd), Hgt; [reflexivity | tauto | exact Htok].
      * rewrite (Hdec (str "+") 1 Hd), Hgt; [reflexivity | tauto | exact Htok].
      * rewrite (Hdec (str "-") (-1) Hd), Hgt;
          [reflexivity | tauto | exact Htok].
  - intros Hd Htok. unfold parse_immediate. rewrite Hfound.
    destruct Htok as [-> | ->]; cbn [str list_ascii_of_string app startswith];
      cbn [Ascii.eqb Bool.eqb andb orb];
      rewrite py_int_prefixed by (auto; left; auto); reflexivity.
  - intros Hd Htok. unfold parse_immediate. rewrite Hfound.
    destruct Htok as [-> | ->]; cbn [str list_ascii_of_string app startswith];
      cbn [Ascii.eqb Bool.eqb andb orb];
      rewrite py_int_prefixed by (auto; right; auto); reflexivity.
Qed.

Lemma parse_immediate_literal_witness :
  number 16 (str "1f") = 31
  /\ parse_immediate (str "0X1f") (Some {[ str "loop" := 8 ]}) 4 true = Ok 31.
Proof.
  split; [reflexivity |].
  refine (proj1 (proj2 (parse_immediate_literal (str "0X1f")
                          (Some {[ str "loop" := 8 ]}) 4 true (str "1f") _))
            _ _).
  - intros m [= <-]. vm_compute. reflexivity.
  - split; [discriminate |].
    repeat (constructor; [eexists; split; [reflexivity | lia] |]).
    constructor.
  - right. reflexivity.
Defined.

(** ** References to labels *)

Lemma B_TYPE_branch (mn : text) :
  mn ∈ B_TYPE ->
  mn <> str "NOP" /\ mn <> str "MV" /\ mn <> str "LI" /\ mn <> str "J"
  /\ (mn ∉ R_TYPE) /\ (mn ∉ I_TYPE) /\ (mn ∉ MEM_LOAD) /\ (mn ∉ MEM_STORE).
Proof.
  intros Hin.
  assert (Hall : forallb
                   (fun x => bool_decide
                      (x <> str "NOP" /\ x <> str "MV" /\ x <> str "LI"
                       /\ x <> str "J" /\ (x ∉ R_TYPE) /\ (x ∉ I_TYPE)
                       /\ (x ∉ MEM_LOAD) /\ (x ∉ MEM_STORE))) B_TYPE = true)
    by (vm_compute; reflexivity).
  rewrite forallb_forall in Hall.
  apply (bool_decide_unpack _). apply Is_true_eq_left. apply Hall.
  apply list_elem_of_In. exact Hin.
Qed.

Lemma parse_immediate_label (tok : text) (table : gmap text Z) (a cur : Z)
    (rel : bool) :
  table !! strip tok = Some a ->
  parse_immediate tok (Some table) cur rel = Ok (if rel then a - cur else a).
Proof.
  intros Hkey. unfold parse_immediate.
  destruct (decide (table = ∅)) as [-> | _].
  - rewrite lookup_empty in Hkey. discriminate Hkey.
  - rewrite Hkey. reflexivity.
Qed.

(** A branch or a jump to a label encodes the distance in bytes from the
    instruction itself to the label: the offset field of a branch holds the
    label's address minus the address of the branch, modulo 2^16 (a backward
    branch wraps to the two's complement), and [J label] is the JAL word with
    rd = 0 and that distance in its 21-bit field. *)
Theorem relative_reference
    (self : Assembler) (line : text) (line_num : Z) (m : text)
    (operands : list text) (a : Z) :
  words (replace "," " " line) = m :: operands ->
  (forall o0 o1 o2 rest op r1 r2,
      operands = o0 :: o1 :: o2 :: rest ->
      upper m ∈ B_TYPE ->
      OPCODES !! upper m = Some (Some op) ->
      parse_register o0 = Ok r1 ->
      parse_register o1 = Ok r2 ->
      labels self !! strip o2 = Some a ->
      assemble_instruction self line line_num
      = Ok (encode_b_type op r1 r2 (a - current_address self))
      /\ field (encode_b_type op r1 r2 (a - current_address self)) 15 0
         = (a - current_address self) mod 2 ^ 16)
  /\ (forall o0 rest,
         operands = o0 :: rest ->
         upper m = str "J" ->
         labels self !! strip o0 = Some a ->
         assemble_instruction self line line_num
         = Ok (encode_u_type 0x56 0 (a - current_address self))
         /\ field (encode_u_type 0x56 0 (a - current_address self)) 20 0
            = (a - current_address self) mod 2 ^ 21).
Proof.
  intros Hparts. split.
  - intros o0 o1 o2 rest op r1 r2 -> Hin Hop Hr1 Hr2 Hlab. split.
    + destruct (B_TYPE_branch _ Hin) as (N1 & N2 & N3 & N4 & N5 & N6 & N7 & N8).
      unfold assemble_instruction. rewrite Hparts, index_0, bind_Ok. cbn [tl].
      rewrite Hop.
      repeat (case_decide; [contradiction |]).
      case_decide; [| contradiction].
      rewrite register_at_0, Hr1, bind_Ok.
      rewrite register_at_S, register_at_0, Hr2, bind_Ok.
      rewrite !index_S, index_0, bind_Ok.
      rewrite (parse_immediate_label o2 _ a _ true Hlab), bind_Ok.
      reflexivity.
    + rewrite field_div_mod by lia.
      change (encode_b_type op r1 r2 (a - current_address self))
        with (encode_i_type op r2 r1 (a - current_address self)).
      rewrite encode_i_type_sum.
      generalize (Z.lor (Z.lor (Z.shiftl op 10) (Z.shiftl r2 5)) r1). intros u.
      pose proof (Z.mod_pos_bound (a - current_address self) (2 ^ 16)
                    ltac:(lia)) as Hm.
      revert Hm. generalize ((a - current_address self) mod 2 ^ 16).
      intros v Hv. change (15 - 0 + 1) with 16. eval_pow2.
      Z.div_mod_to_equations. lia.
  - intros o0 rest -> Hm Hlab. split.
    + unfold assemble_instruction. rewrite Hparts, index_0, bind_Ok, Hm.
      cbn [tl].
      destruct (decide (str "J" = str "NOP")) as [Heq | _]; [discriminate Heq |].
      destruct (decide (str "J" = str "MV")) as [Heq | _]; [discriminate Heq |].
      destruct (decide (str "J" = str "LI")) as [Heq | _]; [discriminate Heq |].
      destruct (decide (str "J" = str "J")) as [_ | Hne]; [| congruence].
      rewrite index_0, bind_Ok.
      rewrite (parse_immediate_label o0 _ a _ true Hlab), bind_Ok.
      rewrite opcode_of_JAL. reflexivity.
    + rewrite field_div_mod by lia. rewrite encode_u_type_sum.
      generalize (Z.lor (Z.shiftl 86 5) 0). intros u.
      pose proof (Z.mod_pos_bound (a - current_address self) (2 ^ 21)
                    ltac:(lia)) as Hm'.
      revert Hm'. generalize ((a - current_address self) mod 2 ^ 21).
      intros v Hv. change (20 - 0 + 1) with 21. eval_pow2.
      Z.div_mod_to_equations. lia.
Qed.

Lemma relative_reference_witness :
  assemble_instruction {| labels := {[ str "loop" := 4 ]}; current_address := 12 |}
    (str "BNE X1, X0, loop") 4
  = Ok (encode_b_type 0x51 1 0 (-8))
  /\ field (encode_b_type 0x51 1 0 (-8)) 15 0 = 0xFFF8.
Proof.
  destruct (relative_reference
              {| labels := {[ str "loop" := 4 ]}; current_address := 12 |}
              (str "BNE X1, X0, loop") 4 (str "BNE")
              [str "X1"; str "X0"; str "loop"] 4) as [Hb _].
  - vm_compute. reflexivity.
  - destruct (Hb (str "X1") (str "X0") (str "loop") [] 0x51 1 0) as [H1 H2].
    + reflexivity.
    + apply (bool_decide_unpack _). vm_compute. exact I.
    + vm_compute. reflexivity.
    + vm_compute. reflexivity.
    + vm_compute. reflexivity.
    + vm_compute. reflexivity.
    + split; [exact H1 | exact H2].
Defined.

(** The pseudo-instructions NOP, MV and LI never look at the label table
    or at the address: whatever the assembler object holds, the line gives
    the same word or the same exception.  In particular the immediate of LI
    cannot be a label. *)
Theorem pseudo_ignores_labels
    (self self' : Assembler) (line : text) (line_num : Z) (m : text)
    (operands : list text) :
  words (replace "," " " line) = m :: operands ->
  upper m = str "NOP" \/ upper m = str "MV" \/ upper m = str "LI" ->
  assemble_instruction self line line_num
  = assemble_instruction self' line line_num.
Proof.
  intros Hparts Hm. unfold assemble_instruction.
  rewrite Hparts, index_0, !bind_Ok.
  destruct Hm as [-> | [-> | ->]].
  - destruct (decide (str "NOP" = str "NOP")) as [_ | Hne]; [| congruence].
    reflexivity.
  - destruct (decide (str "MV" = str "NOP")) as [Heq | _]; [discriminate Heq |].
    destruct (decide (str "MV" = str "MV")) as [_ | Hne]; [| congruence].
    reflexivity.
  - destruct (decide (str "LI" = str "NOP")) as [Heq | _]; [discriminate Heq |].
    destruct (decide (str "LI" = str "MV")) as [Heq | _]; [discriminate Heq |].
    destruct (decide (str "LI" = str "LI")) as [_ | Hne]; [| congruence].
    reflexivity.
Qed.

Lemma pseudo_ignores_labels_witness :
  assemble_instruction {| labels := {[ str "start" := 0 ]}; current_address := 0 |}
    (str "LI X1, start") 1
  = Raise (ImmediateParseError (str "start")).
Proof.
  refine (eq_trans
            (pseudo_ignores_labels
               {| labels := {[ str "start" := 0 ]}; current_address := 0 |}
               new_Assembler (str "LI X1, start") 1 (str "LI")
               [str "X1"; str "start"] _ _) _).
  - vm_compute. reflexivity.
  - right. right. vm_compute. reflexivity.
  - vm_compute. reflexivity.
Defined.

(** ** The output path of the command *)

(** Without an occurrence, [replace] gives the text back. *)
Lemma replace_str_absent (old new s : text) :
  occurs old s = false -> replace_str old new s = s.
Proof.
  unfold replace_str. induction s as [| c s IH]; intros Hno; [reflexivity |].
  cbn [occurs] in Hno. apply orb_false_elim in Hno as [Hhere Hlater].
  cbn [replace_from]. rewrite Hhere, (IH Hlater). reflexivity.
Qed.

(** An occurrence of [.asm] begins with the only dot it has: none begins
    in a text that holds none and ends in an [.asm] that follows it. *)
Lemma startswith_asm_stem (c : ascii) (stem rest : text) :
  startswith (str ".asm") (c :: stem) = false ->
  startswith (str ".asm") ((c :: stem) ++ str ".asm" ++ rest) = false.
Proof.
  cbn [str list_ascii_of_string app startswith].
  destruct (Ascii.eqb "." c); [| reflexivity]. cbn [andb].
  destruct stem as [| x [| y [| z t]]]; cbn [app startswith];
    cbn [Ascii.eqb Bool.eqb andb]; intros H;
    rewrite ?andb_false_r; try reflexivity; exact H.
Qed.

(** The first occurrence of [.asm] is replaced, and the replacement goes on
    behind it. *)
Lemma replace_asm_first (stem rest : text) :
  occurs (str ".asm") stem = false ->
  replace_str (str ".asm") (str ".hex") (stem ++ str ".asm" ++ rest)
  = stem ++ str ".hex" ++ replace_str (str ".asm") (str ".hex") rest.
Proof.
  unfold replace_str. induction stem as [| c stem IH]; intros Hno.
  - reflexivity.
  - cbn [occurs] in Hno. apply orb_false_elim in Hno as [Hhere Hlater].
    change ((c :: stem) ++ str ".asm" ++ rest)
      with (c :: stem ++ str ".asm" ++ rest) at 1.
    cbn [replace_from].
    change (c :: stem ++ str ".asm" ++ rest)
      with ((c :: stem) ++ str ".asm" ++ rest) at 1.
    rewrite (startswith_asm_stem c stem rest Hhere), (IH Hlater).
    reflexivity.
Qed.

Lemma find_no_failing_print (sys : system) (calls : list nat) :
  (forall n, print_ok sys n = true) ->
  find (fun n => negb (print_ok sys n)) calls = None.
Proof.
  intros Hok. induction calls as [| n calls IH]; [reflexivity |].
  cbn [find]. rewrite Hok. exact IH.
Qed.

(** A run on a readable input that assembles, in a system where the output
    can be written and the prints succeed, ends with status 0 and leaves the
    listing in the output file.  With two arguments that file is the second.
    With one, it is the input path with every [.asm] turned into [.hex]: a
    path [stem.asm] whose stem holds no [.asm] gives [stem.hex] (the stem may
    hold dots and slashes, as in [./prog.asm]); in general the first [.asm]
    is replaced and the replacement goes on behind it; and a path in which
    [.asm] does not occur gives the input path itself, so that the run
    writes the listing over its own source.  In any system, a run that ends
    with status 0 has written the whole listing of a completed assembly of
    the input, and no file is touched unless the assembly has completed. *)
Theorem main_output_path
    (prog input : text) (sys : system) (source : text) (code : list Z) :
  read_file sys input = Some source ->
  snd (assemble new_Assembler source) = Completed code ->
  (forall n, print_ok sys n = true) ->
  (forall out rest,
      writable sys out (to_memh code) ->
      main (prog :: input :: out :: rest) sys
      = {| ending := Exit 0; output := Some (out, to_memh code) |})
  /\ (forall out,
         out = replace_str (str ".asm") (str ".hex") input ->
         writable sys out (to_memh code) ->
         main [prog; input] sys
         = {| ending := Exit 0; output := Some (out, to_memh code) |})
  /\ (occurs (str ".asm") input = false ->
      replace_str (str ".asm") (str ".hex") input = input)
  /\ (forall stem,
         input = stem ++ str ".asm" ->
         occurs (str ".asm") stem = false ->
         replace_str (str ".asm") (str ".hex") input = stem ++ str ".hex")
  /\ (forall stem rest,
         input = stem ++ str ".asm" ++ rest ->
         occurs (str ".asm") stem = false ->
         replace_str (str ".asm") (str ".hex") input
         = stem ++ str ".hex" ++ replace_str (str ".asm") (str ".hex") rest)
  /\ (forall (argv : list text) (sys' : system),
         ending (main argv sys') = Exit 0 ->
         exists source' code' path,
           read_file sys' (nth 1 argv []) = Some source'
           /\ snd (assemble new_Assembler source') = Completed code'
           /\ output (main argv sys') = Some (path, to_memh code'))
  /\ (forall (argv : list text) (sys' : system) (path content : text),
         output (main argv sys') = Some (path, content) ->
         exists source' code',
           read_file sys' (nth 1 argv []) = Some source'
           /\ snd (assemble new_Assembler source') = Completed code').
Proof.
  intros Hread Hrun Hprint.
  assert (Hgo : forall argv out,
             (length argv <? 2)%nat = false ->
             nth 1 argv [] = input ->
             (if (2 <? length argv)%nat then nth 2 argv []
              else replace_str (str ".asm") (str ".hex") (nth 1 argv [])) = out ->
             writable sys out (to_memh code) ->
             main argv sys
             = {| ending := Exit 0; output := Some (out, to_memh code) |}).
  { intros argv out Hlen Hin Hout [Hopen Hwrite]. unfold main.
    rewrite Hlen, Hout, Hin, Hread.
    destruct (assemble new_Assembler source) as [asm result].
    cbn [snd] in Hrun. subst result.
    rewrite Hopen, Hwrite, (find_no_failing_print sys _ Hprint).
    reflexivity. }
  split; [| split; [| split; [| split; [| split; [| split]]]]].
  - intros out rest Hw. apply Hgo; [reflexivity | reflexivity | reflexivity |].
    exact Hw.
  - intros out -> Hw. apply Hgo; [reflexivity | reflexivity | reflexivity |].
    exact Hw.
  - apply replace_str_absent.
  - intros stem -> Hno. exact (replace_asm_first stem [] Hno).
  - intros stem rest -> Hno. apply replace_asm_first. exact Hno.
  - intros argv sys'. unfold main.
    destruct (length argv <? 2)%nat;
      [cbn [ending]; destruct (print_ok sys' 0); discriminate |].
    destruct (read_file sys' (nth 1 argv [])) as [source' |];
      [| cbn [ending]; discriminate].
    destruct (assemble new_Assembler source') as [asm [code' | d]] eqn:Hasm;
      unfold assembly_failed;
      [| cbn [ending]; destruct (print_ok sys' 1); discriminate].
    destruct (open_w sys' _);
      [| cbn [ending]; destruct (print_ok sys' 0); discriminate].
    destruct (write_file sys' _ _);
      [cbn [ending]; destruct (print_ok sys' 0); discriminate |].
    destruct (find _ _) as [n |];
      [cbn [ending]; destruct (print_ok sys' (S n)); discriminate |].
    intros _. eexists source', code', _. rewrite Hasm. cbn [snd output].
    split; [reflexivity |]. split; reflexivity.
  - intros argv sys' path content. unfold main.
    destruct (length argv <? 2)%nat; [cbn [output]; discriminate |].
    destruct (read_file sys' (nth 1 argv [])) as [source' |];
      [| cbn [output]; discriminate].
    destruct (assemble new_Assembler source') as [asm [code' | d]] eqn:Hasm;
      unfold assembly_failed; [| cbn [output]; discriminate].
    intros _. exists source', code'. rewrite Hasm. cbn [snd].
    split; reflexivity.
Qed.

Lemma main_output_path_witness :
  main [str "opengpu_asm.py"; str "./prog.asm"]
    {| read_file := fun path =>
                      if decide (path = str "./prog.asm") then Some (str "NOP")
                      else None;
       open_w := fun _ => true;
       write_file := fun _ _ => None;
       print_ok := fun _ => true |}
  = {| ending := Exit 0;
       output := Some (str "./prog.hex", to_memh [0x04000000]) |}.
Proof.
  refine (proj1 (proj2 (main_output_path (str "opengpu_asm.py")
                          (str "./prog.asm") _ (str "NOP") [0x04000000]
                          _ _ _))
            (str "./prog.hex") _ _).
  - vm_compute. reflexivity.
  - vm_compute. reflexivity.
  - intros n. reflexivity.
  - vm_compute. reflexivity.
  - split; reflexivity.
Defined.
